(** * Wake-on-LAN server: validation and packet construction

    A shallow embedding of the core of [wol_server.py]: [validate_mac],
    [validate_ip], [create_magic_packet] and [send_magic_packet], together
    with the Python built-ins they call, and the properties of the
    specification stated and proved on it.

    Conventions.

    - A Python [str] is the list of its code points.  A code point is an
      8-bit [ascii], so the model covers text in U+0000..U+00FF; on that
      range the built-ins below follow CPython 3.11 ([str.isspace],
      [str.strip], [str.upper], [str.lower], the class [\s] of [re],
      [int] and [bytes.fromhex]).  Two code points have an upper-case image
      outside the range (U+00B5 and U+00FF); they are left unchanged, which
      no test made afterwards can tell apart: the image is neither a
      separator, nor whitespace, nor a hex digit.
    - Python integers are [Z]; [bytes] is [list byte].
    - The module-level dictionary [server_stats] is a record in the world
      that every call takes and returns; exceptions are explicit results.
      The world reached when an exception is raised is kept, as a mutation
      of a global dictionary is.
    - Sockets, the environment and the clock are answers of a [Host]; what
      the process does with sockets is recorded in the world.
    - Log records do not influence any value and are not modelled. *)

From Stdlib Require Import String Ascii List ZArith Bool Arith Lia DecimalString.
From Stdlib.Strings Require Import Byte.
Import ListNotations.

Local Open Scope char_scope.
Local Open Scope list_scope.

(* ================================================================== *)
(** * Part 1: Python built-ins                                          *)
(* ================================================================== *)

Abbreviation str := (list ascii) (only parsing).
Abbreviation bytes := (list byte) (only parsing).

(** A string literal. *)
Definition lit (s : string) : str := list_ascii_of_string s.

Definition code (c : ascii) : nat := nat_of_ascii c.

Definition between (lo hi n : nat) : bool := (lo <=? n)%nat && (n <=? hi)%nat.

(** [len(s)] as a Python integer. *)
Definition len {A} (l : list A) : Z := Z.of_nat (length l).

(** Characters for which [str.isspace] holds: TAB LF VT FF CR, the
    separators FS GS RS US, SPACE, NEL and NBSP.  [str.strip] and the
    regular-expression class [\s] use the same set. *)
Definition isspace (c : ascii) : bool :=
  let n := code c in
  between 9 13 n || between 28 32 n || (n =? 133)%nat || (n =? 160)%nat.

(** [str.upper]: one character may map to several (sharp s). *)
Definition upper_char (c : ascii) : str :=
  let n := code c in
  if between 97 122 n || (between 224 254 n && negb (n =? 247)%nat)
  then [ascii_of_nat (n - 32)]
  else if (n =? 223)%nat then ["S"; "S"]
  else [c].

Definition upper (s : str) : str := flat_map upper_char s.

(** [str.lower]. *)
Definition lower_char (c : ascii) : ascii :=
  let n := code c in
  if between 65 90 n || (between 192 222 n && negb (n =? 215)%nat)
  then ascii_of_nat (n + 32)
  else c.

Definition lower (s : str) : str := map lower_char s.

(** [str.strip()] with no argument. *)
Fixpoint lstrip (s : str) : str :=
  match s with
  | c :: r => if isspace c then lstrip r else s
  | [] => []
  end.

Definition rstrip (s : str) : str := rev (lstrip (rev s)).

Definition strip (s : str) : str := rstrip (lstrip s).

(** [a == b] on strings. *)
Fixpoint str_eqb (a b : str) : bool :=
  match a, b with
  | [], [] => true
  | x :: a', y :: b' => Ascii.eqb x y && str_eqb a' b'
  | _, _ => false
  end.

(** [s.startswith(p)]. *)
Fixpoint startswith (s p : str) : bool :=
  match p, s with
  | [], _ => true
  | x :: p', y :: s' => Ascii.eqb x y && startswith s' p'
  | _ :: _, [] => false
  end.

(** [p in s] for two strings: [p] occurs in [s] as a substring. *)
Fixpoint contains (p s : str) : bool :=
  startswith s p ||
  match s with
  | [] => false
  | _ :: s' => contains p s'
  end.

(** [c in s] for a single character [c]. *)
Definition char_in (c : ascii) (s : str) : bool := existsb (Ascii.eqb c) s.

(** [x in l] for a list (or set) of strings. *)
Definition str_in (x : str) (l : list str) : bool := existsb (str_eqb x) l.

(** [s.split(sep)] for a one-character separator: never empty. *)
Fixpoint split (sep : ascii) (s : str) : list str :=
  match s with
  | [] => [[]]
  | c :: r =>
      if Ascii.eqb c sep then [] :: split sep r
      else match split sep r with
           | p :: ps => (c :: p) :: ps
           | [] => [[c]]
           end
  end.

(** [len(set(s))]: the number of distinct characters. *)
Definition distinct (s : str) : Z := len (nodup ascii_dec s).

(** Exceptions the modelled code can meet. *)
Inductive exn : Type :=
| ValueError
| AttributeError
| Timeout       (* socket.timeout *)
| OSError.

Inductive result (A : Type) : Type :=
| Return (a : A)
| Raise (e : exn).
Arguments Return {A} a.
Arguments Raise {A} e.

(** ** [int(s)] for a string, base 10 *)

Definition is_digit (c : ascii) : bool := between 48 57 (code c).

Definition digit_value (c : ascii) : Z := Z.of_nat (code c - 48).

(** Whitespace that [int] skips at both ends: the C locale's [isspace]
    for ASCII, Unicode whitespace above it. *)
Definition int_space (c : ascii) : bool :=
  let n := code c in
  between 9 13 n || (n =? 32)%nat || (n =? 133)%nat || (n =? 160)%nat.

(** Digits with single underscores between them.  [prev_us] tells that the
    previous character was an underscore.  Returns the value read and the
    rest of the string. *)
Fixpoint scan_digits (s : str) (prev_us : bool) (acc : Z) : option (Z * str) :=
  match s with
  | c :: r =>
      if is_digit c then scan_digits r false (10 * acc + digit_value c)
      else if Ascii.eqb c "_" then
             if prev_us then None else scan_digits r true acc
      else if prev_us then None else Some (acc, s)
  | [] => if prev_us then None else Some (acc, [])
  end.

Fixpoint skip_int_space (s : str) : str :=
  match s with
  | c :: r => if int_space c then skip_int_space r else s
  | [] => []
  end.

(** The text after the optional sign has to start with a digit; what
    follows the digits has to be whitespace up to the end. *)
Definition int_parse (s : str) : option Z :=
  let s1 := skip_int_space s in
  let '(negative, s2) :=
    match s1 with
    | "+" :: r => (false, r)
    | "-" :: r => (true, r)
    | _ => (false, s1)
    end in
  match s2 with
  | c :: _ =>
      if is_digit c then
        match scan_digits s2 false 0 with
        | Some (n, rest) =>
            if forallb int_space rest
            then Some (if negative then (- n)%Z else n)
            else None
        | None => None
        end
      else None
  | [] => None
  end.

(** ** [bytes.fromhex] *)

Definition hex_value (c : ascii) : option nat :=
  let n := code c in
  if between 48 57 n then Some (n - 48)
  else if between 65 70 n then Some (n - 55)
  else if between 97 102 n then Some (n - 87)
  else None.

Definition byte_of_nibbles (hi lo : nat) : byte :=
  byte_of_ascii (ascii_of_nat (16 * hi + lo)).

(** ASCII whitespace is skipped between two bytes, never inside one. *)
Definition c_isspace (c : ascii) : bool :=
  between 9 13 (code c) || (code c =? 32)%nat.

Fixpoint fromhex_parse (s : str) : option bytes :=
  match s with
  | [] => Some []
  | c :: r =>
      if c_isspace c then fromhex_parse r
      else match r with
           | d :: r' =>
               match hex_value c, hex_value d, fromhex_parse r' with
               | Some hi, Some lo, Some bs => Some (byte_of_nibbles hi lo :: bs)
               | _, _, _ => None
               end
           | [] => None
           end
  end.

(* ================================================================== *)
(** * Part 2: wol_server.py                                             *)
(* ================================================================== *)

(** ** State, effects and exceptions *)

(** The counters of [server_stats] ([start_time] is never written by the
    modelled functions). *)
Record Stats : Type := mkStats {
  requests_handled : Z;
  magic_packets_sent : Z;
  validation_errors : Z;
  security_violations : Z
}.

Definition address : Type := (str * Z)%type.

(** What the process does with sockets, newest event first. *)
Inductive net_event : Type :=
| SocketOpened
| SentTo (data : bytes) (dest : address)
| SocketClosed.

Record World : Type := mkWorld {
  server_stats : Stats;
  network : list net_event
}.

(** The counters when the module is loaded. *)
Definition initial_world : World := mkWorld (mkStats 0 0 0 0) [].

(** What the operating system answers: the environment variable, whether a
    broadcast UDP socket can be set up, what [sendto] does with a datagram,
    and the clock. *)
Inductive send_outcome : Type :=
| Transmitted (n : Z)    (* sendto returns n *)
| TimedOut               (* sendto raises socket.timeout *)
| SendFailed.            (* sendto raises another OSError *)

Record Host : Type := mkHost {
  WOL_BROADCAST_IP : option str;
  socket_available : bool;
  sendto_outcome : bytes -> address -> send_outcome;
  utcnow_isoformat : str
}.

Definition M (A : Type) : Type := World -> result A * World.

Definition ret {A} (a : A) : M A := fun w => (Return a, w).

Definition raise {A} (e : exn) : M A := fun w => (Raise e, w).

Definition bind {A B} (c : M A) (k : A -> M B) : M B :=
  fun w =>
    match c w with
    | (Return a, w') => k a w'
    | (Raise e, w') => (Raise e, w')
    end.

Declare Scope py_scope.
Delimit Scope py_scope with py.
Notation "x <- c ;; k" := (bind c (fun x => k))
  (at level 61, c at next level, right associativity) : py_scope.
Notation "c ;; k" := (bind c (fun _ => k))
  (at level 61, right associativity) : py_scope.
Local Open Scope py_scope.

(** [try: body except ...: handler]; a handler re-raises what its clauses
    do not name. *)
Definition try_except {A} (body : M A) (handler : exn -> M A) : M A :=
  fun w =>
    match body w with
    | (Return a, w') => (Return a, w')
    | (Raise e, w') => handler e w'
    end.

(** [try: body finally: cleanup], for a cleanup that does not raise. *)
Definition try_finally {A} (body : M A) (cleanup : World -> World) : M A :=
  fun w => let '(r, w') := body w in (r, cleanup w').

Definition modify (f : World -> World) : M unit := fun w => (Return tt, f w).

Definition lift {A} (o : option A) (e : exn) : M A :=
  match o with
  | Some a => ret a
  | None => raise e
  end.

Definition incr_security_violations (w : World) : World :=
  let st := server_stats w in
  mkWorld (mkStats (requests_handled st) (magic_packets_sent st)
                   (validation_errors st) (security_violations st + 1))
          (network w).

Definition incr_magic_packets_sent (w : World) : World :=
  let st := server_stats w in
  mkWorld (mkStats (requests_handled st) (magic_packets_sent st + 1)
                   (validation_errors st) (security_violations st))
          (network w).

Definition record_event (e : net_event) (w : World) : World :=
  mkWorld (server_stats w) (e :: network w).

(** [int(part)] and [bytes.fromhex(s)] raise [ValueError]. *)
Definition int (s : str) : M Z := lift (int_parse s) ValueError.

Definition bytes_fromhex (s : str) : M bytes := lift (fromhex_parse s) ValueError.

(** ** Configuration *)

Definition MAX_MAC_LENGTH : Z := 50.
Definition MAX_IP_LENGTH : Z := 15.

Definition is_empty {A} (l : list A) : bool :=
  match l with
  | [] => true
  | _ :: _ => false
  end.

(** [re.sub(r'[:\-\s]', '', s)]. *)
Definition remove_separators (s : str) : str :=
  filter (fun c => negb (Ascii.eqb c ":" || Ascii.eqb c "-" || isspace c)) s.

(** ** validate_mac *)

Definition mac_dangerous_patterns : list str :=
  [ lit "';"; ["'"; "034"]; lit "--"; lit "/*"; lit "*/"; lit "${";
    lit "<script"; lit "../"; lit "\x";
    lit "drop table"; lit "delete from"; lit "insert into"; lit "update ";
    lit "select "; lit "union select"; lit "exec("; lit "eval(";
    lit "system("; lit "__import__" ].

Definition invalid_macs : list str := [lit "000000000000"; lit "FFFFFFFFFFFF"].

Definition hex_digits : str := lit "0123456789ABCDEF".

(** [validate_mac], lines 58-130.  The argument is a [str], so
    [isinstance(mac_address, str)] holds and the first test is the one for
    the empty string.  The loop over the patterns returns at the first one
    it finds, which is what [find] gives. *)
Definition validate_mac (mac_address : str) : M bool :=
  if is_empty mac_address then ret false
  else if (MAX_MAC_LENGTH <? len mac_address)%Z then
    modify incr_security_violations ;; ret false
  else
    let mac_lower := lower mac_address in
    match find (fun pattern => contains pattern mac_lower) mac_dangerous_patterns with
    | Some _ => modify incr_security_violations ;; ret false
    | None =>
        let mac_trimmed := strip mac_address in
        let has_colon := char_in ":" mac_trimmed in
        let has_hyphen := char_in "-" mac_trimmed in
        if has_colon && has_hyphen then ret false
        else
          let mac_clean := remove_separators (upper mac_trimmed) in
          if negb (len mac_clean =? 12)%Z then ret false
          else if negb (forallb (fun c => char_in c hex_digits) mac_clean) then ret false
          else if str_in mac_clean invalid_macs then ret false
          else if (distinct mac_clean <=? 1)%Z then ret false
          else ret true
    end.

(** ** validate_ip *)

Definition ip_dangerous_patterns : list str :=
  [ lit "';"; ["'"; "034"]; lit "${"; lit "<"; lit ">"; lit "&"; lit "|";
    lit "`"; lit "$("; lit "../"; lit "\x" ].

Definition reserved_ips : list str :=
  [lit "0.0.0.0"; lit "127.0.0.1"; lit "255.255.255.255"].

(** The loop over the parts: [false] when it returns [False] early, [true]
    when it runs to its end; a part that [int] refuses raises. *)
Fixpoint check_parts (parts : list str) : M bool :=
  match parts with
  | [] => ret true
  | part :: rest =>
      if (1 <? len part)%Z && startswith part ["0"] then ret false
      else
        num <- int part ;;
        if (num <? 0)%Z || (255 <? num)%Z then ret false
        else check_parts rest
  end.

(** [validate_ip], lines 132-202.  The tests come in the order of the
    source: whitespace, length, patterns, and then the [try] block, whose
    handler turns [ValueError] and [AttributeError] into [False]. *)
Definition validate_ip (ip_address : str) : M bool :=
  if is_empty ip_address then ret false
  else if negb (str_eqb ip_address (strip ip_address))
          || char_in "009" ip_address || char_in "010" ip_address then ret false
  else if (MAX_IP_LENGTH <? len ip_address)%Z then
    modify incr_security_violations ;; ret false
  else
    match find (fun pattern => contains pattern ip_address) ip_dangerous_patterns with
    | Some _ => modify incr_security_violations ;; ret false
    | None =>
        try_except
          (let parts := split "." ip_address in
           if negb (len parts =? 4)%Z then ret false
           else
             ok <- check_parts parts ;;
             if negb ok then ret false
             else if str_in ip_address reserved_ips then ret false
             else if startswith ip_address (lit "127.") then ret false
             else ret true)
          (fun e =>
             match e with
             | ValueError | AttributeError => ret false
             | _ => raise e
             end)
    end.

(** ** create_magic_packet *)

(** Lines 204-243.  The whole body is under [try]; the handler catches
    every exception.  The text that is converted is cleaned from the
    argument itself, not from its trimmed form. *)
Definition create_magic_packet (mac_address : str) : M (option bytes) :=
  try_except
    (valid <- validate_mac mac_address ;;
     if negb valid then ret None
     else
       let mac_clean := remove_separators (upper mac_address) in
       mac_bytes <- bytes_fromhex mac_clean ;;
       let magic_packet := repeat xff 6 ++ concat (repeat mac_bytes 16) in
       if negb (len magic_packet =? 102)%Z then ret None
       else ret (Some magic_packet))
    (fun _ => ret None).

(** ** send_magic_packet *)

(** The two shapes of the dictionary the function returns. *)
Inductive send_result : Type :=
| Sent (mac : str) (target_ip : option str) (broadcast_ip : str)
       (port : Z) (packet_size : Z) (timestamp : str)
| Failed (error : str) (mac : str).

Definition success (r : send_result) : bool :=
  match r with
  | Sent _ _ _ _ _ _ => true
  | Failed _ _ => false
  end.

(** [socket.socket(...)], [settimeout] and [setsockopt]: together they
    give a socket or raise an [OSError]. *)
Definition open_socket (h : Host) : M unit :=
  if socket_available h then modify (record_event SocketOpened)
  else raise OSError.

(** [sock.sendto(data, dest)]: the datagram is handed to the system, which
    answers with a byte count or an exception. *)
Definition sendto (h : Host) (data : bytes) (dest : address) : M Z :=
  modify (record_event (SentTo data dest)) ;;
  match sendto_outcome h data dest with
  | Transmitted n => ret n
  | TimedOut => raise Timeout
  | SendFailed => raise OSError
  end.

(** [os.getenv('WOL_BROADCAST_IP', '192.168.1.255')]. *)
Definition configured_broadcast_ip (h : Host) : str :=
  match WOL_BROADCAST_IP h with
  | Some ip => ip
  | None => lit "192.168.1.255"
  end.

(** Lines 245-324.  [not magic_packet] holds for [None] and for empty
    bytes.  The inner [try] closes the socket on every path; the outer one
    names the timeout first and then every other exception. *)
Definition send_magic_packet (h : Host) (mac_address : str)
    (target_ip : option str) : M send_result :=
  try_except
    (magic_packet <- create_magic_packet mac_address ;;
     match magic_packet with
     | None | Some [] => ret (Failed (lit "Invalid MAC address format") mac_address)
     | Some packet =>
         open_socket h ;;
         let broadcast_ip := configured_broadcast_ip h in
         let wol_port := 9%Z in
         try_finally
           (bytes_sent <- sendto h packet (broadcast_ip, wol_port) ;;
            if (bytes_sent =? len packet)%Z then
              modify incr_magic_packets_sent ;;
              ret (Sent mac_address target_ip broadcast_ip wol_port bytes_sent
                        (utcnow_isoformat h))
            else ret (Failed (lit "Incomplete packet transmission") mac_address))
           (record_event SocketClosed)
     end)
    (fun e =>
       match e with
       | Timeout => ret (Failed (lit "Network timeout") mac_address)
       | _ => ret (Failed (lit "Network error") mac_address)
       end).

(** The value a call returns, and the world it leaves. *)
Definition value_of {A} (c : M A) (w : World) : result A := fst (c w).
Definition world_after {A} (c : M A) (w : World) : World := snd (c w).

(* ================================================================== *)
(** * Part 3: vocabulary of the statements                              *)
(* ================================================================== *)

(** The text [validate_mac] binds to [mac_clean]: the canonical form of
    its argument. *)
Definition canonical_form (mac_address : str) : str :=
  remove_separators (upper (strip mac_address)).

(** The tests an address passes when [validate_mac] accepts it. *)
Record mac_accepted (s : str) : Prop := {
  acc_nonempty : is_empty s = false;
  acc_length : (len s <= MAX_MAC_LENGTH)%Z;
  acc_no_pattern :
    find (fun pattern => contains pattern (lower s)) mac_dangerous_patterns = None;
  acc_separators : char_in ":" (strip s) && char_in "-" (strip s) = false;
  acc_twelve : len (canonical_form s) = 12%Z;
  acc_hex : forallb (fun c => char_in c hex_digits) (canonical_form s) = true;
  acc_not_listed : str_in (canonical_form s) invalid_macs = false;
  acc_distinct : (1 < distinct (canonical_form s))%Z
}.

(** A part of a dotted address that the loop of [validate_ip] lets pass,
    and the number it stands for. *)
Definition octet (part : str) (n : Z) : Prop :=
  (1 <? len part)%Z && startswith part ["0"] = false
  /\ int_parse part = Some n /\ (0 <= n <= 255)%Z.

(** The tests an address passes when [validate_ip] accepts it. *)
Record ip_accepted (s : str) : Prop := {
  ip_nonempty : is_empty s = false;
  ip_trimmed : s = strip s;
  ip_no_tab : char_in "009" s = false;
  ip_no_newline : char_in "010" s = false;
  ip_length : (len s <= MAX_IP_LENGTH)%Z;
  ip_no_pattern :
    find (fun pattern => contains pattern s) ip_dangerous_patterns = None;
  ip_parts : exists p1 p2 p3 p4 n1 n2 n3 n4,
      split "." s = [p1; p2; p3; p4]
      /\ octet p1 n1 /\ octet p2 n2 /\ octet p3 n3 /\ octet p4 n4;
  ip_not_reserved : str_in s reserved_ips = false;
  ip_not_loopback_text : startswith s (lit "127.") = false
}.

(** [s] contains one of the [patterns] as it is written. *)
Definition mentions (patterns : list str) (s : str) : Prop :=
  exists p a b, In p patterns /\ s = a ++ p ++ b.

(** [s] contains one of the [patterns] in some letter case. *)
Definition mentions_any_case (patterns : list str) (s : str) : Prop :=
  exists p a x b, In p patterns /\ s = a ++ x ++ b /\ lower x = p.

(** The spellings of an address the docstring of [validate_mac] names:
    pairs of digits joined by colons, by hyphens, or by nothing. *)
Inductive separator_style : Type := Colons | Hyphens | NoSeparator.

Definition separator (style : separator_style) : str :=
  match style with
  | Colons => [":"]
  | Hyphens => ["-"]
  | NoSeparator => []
  end.

Fixpoint spell (sep : str) (digits : str) : str :=
  match digits with
  | a :: b :: ((_ :: _) as rest) => a :: b :: sep ++ spell sep rest
  | _ => digits
  end.

(** Twelve upper-case hex digits. *)
Definition is_canonical (c : str) : Prop :=
  length c = 12 /\ forallb (fun x => char_in x hex_digits) c = true.

(** [v] writes the canonical address [c] in some separator style and some
    letter case. *)
Definition variant_of (c v : str) : Prop :=
  exists style digits, lower digits = lower c /\ v = spell (separator style) digits.

(** A hex digit in either letter case. *)
Definition hexish (x : ascii) : bool :=
  char_in (lower_char x) (lit "0123456789abcdef").

(** The characters a spelled address has once it is lower-cased. *)
Definition spelling_char (y : ascii) : bool :=
  char_in y (lit "0123456789abcdef:-").

(** A pattern that needs a character no spelled address has. *)
Definition foreign (pattern : list ascii) : bool :=
  existsb (fun x => negb (spelling_char x)) pattern.

(** The tests [validate_mac] makes on the canonical form. *)
Definition canonical_checks (c : list ascii) : bool :=
  (len c =? 12)%Z
  && forallb (fun x => char_in x hex_digits) c
  && negb (str_in c invalid_macs)
  && negb (distinct c <=? 1)%Z.

(** A call counts at most one security violation and changes nothing else. *)
Definition counted_at_most_once (w w' : World) : Prop :=
  w' = w \/ w' = incr_security_violations w.

Definition violations (w : World) : Z := security_violations (server_stats w).

(** The rejection rule read for one validator: whatever is longer than the
    cap or carries a listed signature is refused and counted. *)
Definition counts_every_violation
    (validate : str -> M bool) (cap : Z) (listed : str -> Prop) : Prop :=
  forall (s : str) (w : World),
    (cap < len s)%Z \/ listed s ->
    value_of (validate s) w = Return false
    /\ (violations w < violations (world_after (validate s) w))%Z.

(** Calls of the validators made between two calls under comparison. *)
Inductive validator_call : Type :=
| CallMac (s : list ascii)
| CallIp (s : list ascii).

Definition run_call (w : World) (c : validator_call) : World :=
  match c with
  | CallMac s => world_after (validate_mac s) w
  | CallIp s => world_after (validate_ip s) w
  end.

Definition run_calls (calls : list validator_call) (w : World) : World :=
  fold_left run_call calls w.

(** The result of a send without the caller's [target_ip]. *)
Definition forget_target_ip (r : send_result) : send_result :=
  match r with
  | Sent mac _ broadcast_ip port packet_size timestamp =>
      Sent mac None broadcast_ip port packet_size timestamp
  | Failed error mac => Failed error mac
  end.

(* ================================================================== *)
(** * Part 3a: vocabulary of further statements                         *)
(* ================================================================== *)

(** The decimal writing of a number, as [str(n)] gives it. *)
Definition str_of_nat (n : nat) : list ascii :=
  list_ascii_of_string (NilEmpty.string_of_uint (Nat.to_uint n)).

(** An address written the usual way: four numbers in decimal, joined by
    dots. *)
Definition dotted (a b c d : nat) : list ascii :=
  str_of_nat a ++ "." :: str_of_nat b ++ "." :: str_of_nat c ++ "." :: str_of_nat d.


(** A decimal digit or a dot. *)
Definition dotted_char (c : ascii) : bool := is_digit c || Ascii.eqb c ".".

(** What [str_of_nat] gives for a number up to 255, checked by [int]. *)
Definition plain_octet (n : nat) : bool :=
  let p := str_of_nat n in
  negb (is_empty p)
  && (length p <=? 3)%nat
  && forallb is_digit p
  && negb ((1 <? len p)%Z && startswith p ["0"])
  && match int_parse p with
     | Some m => (m =? Z.of_nat n)%Z
     | None => false
     end.

(** A text that [validate_mac] looks at up to its canonical form: not
    empty, within the length cap, free of signatures and not mixing the
    two separators. *)
Definition plain_text (s : list ascii) : Prop :=
  is_empty s = false
  /\ (len s <= MAX_MAC_LENGTH)%Z
  /\ find (fun pattern => contains pattern (lower s)) mac_dangerous_patterns = None
  /\ char_in ":" (strip s) && char_in "-" (strip s) = false.

(** The events a call added to the record of the network. *)
Definition new_events (before after : World) (events : list net_event) : Prop :=
  network after = events ++ network before.

(* ================================================================== *)
(** * Part 3b: docker/wol_forwarder.py                                  *)
(* ================================================================== *)

(** The forwarder listens for magic packets on a UDP port and sends the
    valid ones on to the local network.  One call of [handle_client] is
    modelled; the threads it runs in are not. *)

(** [a == b] on bytes. *)
Fixpoint bytes_eqb (a b : list byte) : bool :=
  match a, b with
  | [], [] => true
  | x :: a', y :: b' => Byte.eqb x y && bytes_eqb a' b'
  | _, _ => false
  end.

(** [data[from:to]] for [0 <= from <= to]. *)
Definition slice {A} (from to : nat) (data : list A) : list A :=
  firstn (to - from) (skipn from data).

(** [sep.join(parts)]. *)
Fixpoint join (sep : list ascii) (parts : list (list ascii)) : list ascii :=
  match parts with
  | [] => []
  | [p] => p
  | p :: rest => p ++ sep ++ join sep rest
  end.

(** [f'{b:02x}']: two lower-case hex digits. *)
Definition hex_char (n : nat) : ascii := nth n (lit "0123456789abcdef") "0".

Definition format_02x (b : byte) : list ascii :=
  [hex_char (Byte.to_nat b / 16); hex_char (Byte.to_nat b mod 16)].

Definition LOCAL_BROADCAST : list ascii := lit "192.168.3.255".

(** [validate_magic_packet], lines 56-77: the pair of the verdict and
    either the address read from the packet or the reason of the refusal
    (its first word, the Spanish for size, has U+00F1 as fifth letter). *)
Definition validate_magic_packet (data : list byte) : bool * list ascii :=
  if negb (length data =? 102)%nat then
    (false, lit "Tama" ++ ["241"] ++ lit "o incorrecto: " ++ str_of_nat (length data)
            ++ lit " bytes (esperado: 102)")
  else if negb (bytes_eqb (slice 0 6 data) (repeat xff 6)) then
    (false, lit "Header incorrecto")
  else
    let mac_bytes := slice 6 12 data in
    match find (fun i => let start_idx := 6 + i * 6 in
                         let end_idx := start_idx + 6 in
                         negb (bytes_eqb (slice start_idx end_idx data) mac_bytes))
               (seq 0 16) with
    | Some i => (false, lit "MAC inconsistente en bloque " ++ str_of_nat (i + 1))
    | None => (true, join [":"] (map format_02x mac_bytes))
    end.

(** The counters of the forwarder ([start_time] is never written after
    the start) and what it does with sockets, newest event first. *)
Record Forwarder : Type := mkForwarder {
  packets_received : Z;
  packets_forwarded : Z;
  forwarder_network : list net_event
}.

Definition forwarder_event (e : net_event) (st : Forwarder) : Forwarder :=
  mkForwarder (packets_received st) (packets_forwarded st) (e :: forwarder_network st).

(** [send_wakeonlan_style], lines 79-102: a socket of its own for every
    datagram.  Every exception gives [False]; the socket is closed only
    when [sendto] returns.  The argument [mac_address], which the function
    does not read, is left out here and below, as is [client_addr], which
    is only logged. *)
Definition send_wakeonlan_style (h : Host) (magic_packet : list byte)
    (target_ip : list ascii) (port : Z) (st : Forwarder) : bool * Forwarder :=
  if socket_available h then
    let st := forwarder_event SocketOpened st in
    let st := forwarder_event (SentTo magic_packet (target_ip, port)) st in
    match sendto_outcome h magic_packet (target_ip, port) with
    | Transmitted bytes_sent =>
        ((bytes_sent =? len magic_packet)%Z, forwarder_event SocketClosed st)
    | TimedOut | SendFailed => (false, st)
    end
  else (false, st).

(** One step of the sums in [forward_wol_packet]:
    [if send_wakeonlan_style(...): total_sent += 1]. *)
Definition send_and_count (h : Host) (magic_packet : list byte)
    (target : list ascii) (port : Z) (acc : Z * Forwarder) : Z * Forwarder :=
  let '(total_sent, st) := acc in
  let '(sent, st) := send_wakeonlan_style h magic_packet target port st in
  (if sent then (total_sent + 1)%Z else total_sent, st).

(** [forward_wol_packet], lines 123-154. *)
Definition forward_wol_packet (h : Host) (magic_packet : list byte)
    (st : Forwarder) : Z * Forwarder :=
  let acc := (0%Z, st) in
  let acc := send_and_count h magic_packet (lit "255.255.255.255") 9 acc in
  let acc := send_and_count h magic_packet LOCAL_BROADCAST 9 acc in
  let target_ip := lit "192.168.3.90" in
  let acc := send_and_count h magic_packet target_ip 9 acc in
  let backup_targets := [lit "255.255.255.255"; LOCAL_BROADCAST; target_ip] in
  let '(total_sent, st) :=
    fold_left (fun acc target => send_and_count h magic_packet target 7 acc)
              backup_targets acc in
  (total_sent,
   mkForwarder (packets_received st) (packets_forwarded st + total_sent)
               (forwarder_network st)).

(** [handle_client], lines 156-175. *)
Definition handle_client (h : Host) (data : list byte) (st : Forwarder) : Forwarder :=
  let st := mkForwarder (packets_received st + 1) (packets_forwarded st)
                        (forwarder_network st) in
  let '(is_valid, result) := validate_magic_packet data in
  if negb is_valid then st
  else snd (forward_wol_packet h data st).

(** The datagrams among some events, oldest first. *)
Definition datagrams (events : list net_event) : list (list byte * address) :=
  flat_map (fun e => match e with
                     | SentTo data dest => [(data, dest)]
                     | _ => []
                     end) (rev events).

(** The six destinations of [forward_wol_packet], in the order of the
    calls. *)
Definition forward_destinations : list address :=
  [ (lit "255.255.255.255", 9%Z); (lit "192.168.3.255", 9%Z); (lit "192.168.3.90", 9%Z);
    (lit "255.255.255.255", 7%Z); (lit "192.168.3.255", 7%Z); (lit "192.168.3.90", 7%Z) ].

(** Whether the system takes the whole of a datagram. *)
Definition fully_sent (h : Host) (magic_packet : list byte) (dest : address) : bool :=
  socket_available h
  && match sendto_outcome h magic_packet dest with
     | Transmitted bytes_sent => (bytes_sent =? len magic_packet)%Z
     | TimedOut | SendFailed => false
     end.

(** A magic packet for the six bytes [mac]. *)
Definition magic_packet_of (mac : list byte) : list byte :=
  repeat xff 6 ++ concat (repeat mac 16).

(* ================================================================== *)
(** * Part 3c: the request handler of wol_server.py                     *)
(* ================================================================== *)

(** [WoLHandler], lines 326-493.  The HTTP machinery of the standard
    library is not modelled: a request is what the handler reads from it,
    and a handler returns the one response it sends.  Sending is taken to
    succeed; a handler that sends and returns is a computation that
    returns the response. *)

Definition MAX_REQUEST_SIZE : Z := 1024.

(** A value decoded from JSON, as far as the handler looks at it: a
    string, or anything else with its truth value and its [str()]. *)
Inductive pyvalue : Type :=
| PyStr (s : list ascii)
| PyOther (truthy : bool) (text : list ascii).

Definition PyNone : pyvalue := PyOther false (lit "None").

(** [bool(v)]. *)
Definition truthy (v : pyvalue) : bool :=
  match v with
  | PyStr s => negb (is_empty s)
  | PyOther t _ => t
  end.

(** [str(v)]. *)
Definition py_str (v : pyvalue) : list ascii :=
  match v with
  | PyStr s => s
  | PyOther _ text => text
  end.

(** [d.get(key, default)] on a dictionary given by its items. *)
Fixpoint dict_get (items : list (list ascii * pyvalue)) (key : list ascii)
    (default : pyvalue) : pyvalue :=
  match items with
  | [] => default
  | (k, v) :: rest => if str_eqb k key then v else dict_get rest key default
  end.

(** What reading the body and [json.loads] come to: an exception other
    than the two decoding errors, a decoding error, a value that is not a
    dictionary, or a dictionary. *)
Inductive request_body : Type :=
| BodyUnreadable
| BodyNotJson
| BodyNotObject
| BodyObject (items : list (list ascii * pyvalue)).

Record Request : Type := mkRequest {
  request_path : list ascii;                  (* urlparse(self.path).path *)
  content_type_header : option (list ascii);
  content_length_header : option (list ascii);
  body : request_body;
  uptime_seconds : Z                          (* the clock, for /health *)
}.

Inductive response : Type :=
| WakeResponse (ip : pyvalue) (mac : list ascii) (name : pyvalue)
               (broadcast_ip : list ascii) (packet_size : Z) (timestamp : list ascii)
| HealthResponse (uptime handled sent errors violations : Z) (timestamp : list ascii)
| ErrorResponse (status : Z) (message : list ascii) (timestamp : list ascii).

(** The status line of a response: the first two are sent with 200. *)
Definition status_code (r : response) : Z :=
  match r with
  | WakeResponse _ _ _ _ _ _ => 200
  | HealthResponse _ _ _ _ _ _ => 200
  | ErrorResponse status _ _ => status
  end.

(** [int(s)] with the limit CPython puts on the number of digits (4300
    unless configured otherwise): longer numbers raise [ValueError]. *)
Definition INT_MAX_STR_DIGITS : Z := 4300.

Definition int_of_header (s : list ascii) : option Z :=
  if (INT_MAX_STR_DIGITS <? len (filter is_digit s))%Z then None else int_parse s.

Definition incr_requests_handled (w : World) : World :=
  let st := server_stats w in
  mkWorld (mkStats (requests_handled st + 1) (magic_packets_sent st)
                   (validation_errors st) (security_violations st))
          (network w).

Definition incr_validation_errors (w : World) : World :=
  let st := server_stats w in
  mkWorld (mkStats (requests_handled st) (magic_packets_sent st)
                   (validation_errors st + 1) (security_violations st))
          (network w).

(** [send_error_response], lines 485-493. *)
Definition send_error_response (h : Host) (status : Z) (message : list ascii)
    : M response :=
  ret (ErrorResponse status message (utcnow_isoformat h)).

(** [validate_ip] on a decoded value: [False] for what is not a [str]. *)
Definition validate_ip_of_value (v : pyvalue) : M bool :=
  match v with
  | PyStr s => validate_ip s
  | PyOther _ _ => ret false
  end.

(** The [target_ip] handed to [send_magic_packet].  It is a valid address
    or a false value there; a false value that is not a string is passed
    as [None], which differs from the source only in the field
    ['target_ip'] of the result, a field the handler does not read. *)
Definition as_target_ip (v : pyvalue) : option (list ascii) :=
  match v with
  | PyStr s => Some s
  | PyOther _ _ => None
  end.

(** [handle_wake_request], lines 376-470.  [validate_mac] answers [False]
    for a value that is not a [str]; the two cases are told apart when the
    value is looked up. *)
Definition handle_wake_request (h : Host) (req : Request) : M response :=
  try_except
    (let content_type :=
       match content_type_header req with
       | Some v => v
       | None => []
       end in
     if negb (startswith content_type (lit "application/json")) then
       send_error_response h 400 (lit "Content-Type must be application/json")
     else
       let content_length :=
         match content_length_header req with
         | Some v => match int_of_header v with
                     | Some n => n
                     | None => 0%Z
                     end
         | None => 0%Z
         end in
       if (MAX_REQUEST_SIZE <? content_length)%Z then
         modify incr_security_violations ;;
         send_error_response h 413 (lit "Request too large")
       else if (content_length <=? 0)%Z then
         send_error_response h 400 (lit "Empty request body")
       else
         match body req with
         | BodyUnreadable => raise OSError
         | BodyNotJson =>
             modify incr_validation_errors ;;
             send_error_response h 400 (lit "Invalid JSON format")
         | BodyNotObject =>
             send_error_response h 400 (lit "Request must be a JSON object")
         | BodyObject items =>
             let mac_address := dict_get items (lit "mac") PyNone in
             if negb (truthy mac_address) then
               send_error_response h 400 (lit "Missing required field: 'mac'")
             else
               let target_ip := dict_get items (lit "ip") PyNone in
               let device_name :=
                 dict_get items (lit "name") (PyStr (lit "Unknown Device")) in
               match mac_address with
               | PyOther _ _ =>
                   modify incr_validation_errors ;;
                   send_error_response h 400 (lit "Invalid MAC address format")
               | PyStr mac =>
                   mac_ok <- validate_mac mac ;;
                   if negb mac_ok then
                     modify incr_validation_errors ;;
                     send_error_response h 400 (lit "Invalid MAC address format")
                   else
                     ip_ok <- (if truthy target_ip then validate_ip_of_value target_ip
                               else ret true) ;;
                     if negb ip_ok then
                       modify incr_validation_errors ;;
                       send_error_response h 400 (lit "Invalid IP address format")
                     else if (100 <? len (py_str device_name))%Z then
                       send_error_response h 400
                         (lit "Device name too long (max 100 characters)")
                     else
                       result <- send_magic_packet h mac (as_target_ip target_ip) ;;
                       match result with
                       | Sent mac' _ broadcast_ip _ packet_size timestamp =>
                           ret (WakeResponse target_ip mac' device_name broadcast_ip
                                             packet_size timestamp)
                       | Failed _ _ =>
                           send_error_response h 500 (lit "Failed to send magic packet")
                       end
               end
         end)
    (fun _ => send_error_response h 500 (lit "Internal server error")).

(** [handle_health_check], lines 359-374; the constant fields of the
    answer are left out. *)
Definition handle_health_check (h : Host) (req : Request) : M response :=
  fun w =>
    let st := server_stats w in
    (Return (HealthResponse (uptime_seconds req) (requests_handled st)
                            (magic_packets_sent st) (validation_errors st)
                            (security_violations st) (utcnow_isoformat h)),
     w).

(** [do_GET] and [do_POST], lines 335-357. *)
Definition do_GET (h : Host) (req : Request) : M response :=
  modify incr_requests_handled ;;
  if str_eqb (request_path req) (lit "/health") then handle_health_check h req
  else send_error_response h 404 (lit "Endpoint not found").

Definition do_POST (h : Host) (req : Request) : M response :=
  modify incr_requests_handled ;;
  if str_eqb (request_path req) (lit "/wake") then handle_wake_request h req
  else send_error_response h 404 (lit "Endpoint not found").

(** ** Vocabulary for the handler *)

Inductive http_method : Type := GET | POST.

(** One request as the server meets it: the answers of the system at
    that time, the method and the request. *)
Definition arrival : Type := (Host * http_method * Request)%type.

Definition dispatch (a : arrival) : M response :=
  let '(h, method, req) := a in
  match method with
  | GET => do_GET h req
  | POST => do_POST h req
  end.

(** Requests served one after the other. *)
Fixpoint serve (arrivals : list arrival) : M (list response) :=
  match arrivals with
  | [] => ret []
  | a :: rest =>
      r <- dispatch a ;;
      rs <- serve rest ;;
      ret (r :: rs)
  end.

Definition is_wake_response (r : response) : bool :=
  match r with
  | WakeResponse _ _ _ _ _ _ => true
  | _ => false
  end.

(** The three answers the handler gives after counting a validation
    error. *)
Definition is_validation_error (r : response) : bool :=
  match r with
  | ErrorResponse status message _ =>
      (status =? 400)%Z
      && str_in message [lit "Invalid JSON format"; lit "Invalid MAC address format";
                         lit "Invalid IP address format"]
  | _ => false
  end.

Definition count {A} (f : A -> bool) (l : list A) : Z := len (filter f l).

(** The counters a request can move, and by how much. *)
Record counted (w w' : World) (r : response) : Prop := {
  cnt_errors :
    validation_errors (server_stats w')
    = (validation_errors (server_stats w) + (if is_validation_error r then 1 else 0))%Z;
  cnt_sent :
    magic_packets_sent (server_stats w')
    = (magic_packets_sent (server_stats w) + (if is_wake_response r then 1 else 0))%Z;
  cnt_violations :
    (security_violations (server_stats w) <= security_violations (server_stats w'))%Z;
  cnt_handled :
    requests_handled (server_stats w') = requests_handled (server_stats w)
}.

(* ================================================================== *)
(** * Part 3d: wol-server/app.py                                        *)
(* ================================================================== *)

(** The Flask variant of the server: its validator, its formatter and its
    sender in Python.  The sender that runs the [wakeonlan] command is not
    modelled. *)

(** [is_valid_mac], lines 72-84. *)
Definition is_valid_mac (mac_address : list ascii) : bool :=
  if is_empty mac_address then false
  else
    let clean_mac := remove_separators (upper mac_address) in
    if negb (len clean_mac =? 12)%Z then false
    else forallb (fun c => char_in c hex_digits) clean_mac.

(** [format_mac], lines 86-89: the pairs [clean_mac[i:i+2]] for
    [i] in [range(0, 12, 2)], joined by colons. *)
Definition format_mac (mac_address : list ascii) : list ascii :=
  let clean_mac := remove_separators (upper mac_address) in
  join [":"] (map (fun i => slice i (i + 2) clean_mac) [0; 2; 4; 6; 8; 10]).

(** [s.replace(':', '')]. *)
Definition remove_colons (s : list ascii) : list ascii :=
  filter (fun c => negb (Ascii.eqb c ":")) s.

(** One turn of the loop over the ports in [send_magic_packet_python]:
    an exception of [sendto] is caught and the next port is tried. *)
Definition try_port (h : Host) (magic_packet : list byte) (target : list ascii)
    (acc : Z * list net_event) (port : Z) : Z * list net_event :=
  let '(success_count, net) := acc in
  let net := SentTo magic_packet (target, port) :: net in
  match sendto_outcome h magic_packet (target, port) with
  | Transmitted bytes_sent =>
      (if (bytes_sent =? len magic_packet)%Z then (success_count + 1)%Z
       else success_count, net)
  | TimedOut | SendFailed => (success_count, net)
  end.

(** [send_magic_packet_python], lines 152-187, on the record of what the
    process does with sockets.  The argument [target_ip] is not read.
    A failure to decode the address or to get a socket gives [False]. *)
Definition send_magic_packet_python (h : Host) (mac_address : list ascii)
    (net : list net_event) : bool * list net_event :=
  match fromhex_parse (remove_colons mac_address) with
  | None => (false, net)
  | Some mac_bytes =>
      let magic_packet := repeat xff 6 ++ concat (repeat mac_bytes 16) in
      if socket_available h then
        let net := SocketOpened :: net in
        let target := lit "192.168.3.255" in
        let ports := [9; 7]%Z in
        let '(success_count, net) :=
          fold_left (try_port h magic_packet target) ports (0%Z, net) in
        ((0 <? success_count)%Z, SocketClosed :: net)
      else (false, net)
  end.

(* ================================================================== *)
(** * Part 4: the model on examples                                     *)
(* ================================================================== *)

Example int_examples :
  map int_parse
      [lit "+5"; lit " 5"; lit "1_9"; lit "-0"; lit "0_7"; lit "255";
       lit "_1"; lit "1_"; lit "1__9"; lit "+ 5"; lit ""; lit "+"; lit "abc";
       [ascii_of_nat 28; "5"]; [ascii_of_nat 133; "5"]; ["5"; ascii_of_nat 160];
       ["5"; ascii_of_nat 11]; ["5"; ascii_of_nat 0]; lit "-1"; lit "5 x"]
  = [Some 5; Some 5; Some 19; Some 0; Some 7; Some 255;
     None; None; None; None; None; None; None;
     None; Some 5; Some 5; Some 5; None; Some (-1); None]%Z.
Proof. vm_compute. reflexivity. Qed.

Example fromhex_example :
  fromhex_parse (lit "AABBCCDDEEFF") = Some [xaa; xbb; xcc; xdd; xee; xff].
Proof. reflexivity. Qed.

Example split_examples :
  split "." (lit "a.b..c") = [lit "a"; lit "b"; lit ""; lit "c"]
  /\ split "." (lit "") = [lit ""] /\ split "." (lit ".") = [lit ""; lit ""].
Proof. repeat split. Qed.

Example strip_example : strip (lit "  AA:BB  ") = lit "AA:BB".
Proof. reflexivity. Qed.

(** The validators on the inputs of the repository's test suite
    ([Tests/test_wol_server.py]), with the verdict the tests expect. *)
Example test_validate_mac_valid_formats (w : World) :
  map (fun s => value_of (validate_mac (lit s)) w)
      ["AA:BB:CC:DD:EE:FF"; "00:1B:63:84:45:E6"; "aa:bb:cc:dd:ee:ff";
       "AA-BB-CC-DD-EE-FF"; "00-1B-63-84-45-E6"; "AABBCCDDEEFF";
       "001B638445E6"; "aa:BB:cc:DD:ee:FF"; "  AA:BB:CC:DD:EE:FF  "]%string
  = repeat (Return true) 9.
Proof. reflexivity. Qed.

Example test_validate_mac_invalid_formats (w : World) :
  map (fun s => value_of (validate_mac (lit s)) w)
      [""; "AA:BB:CC:DD:EE"; "AA:BB:CC:DD:EE:FF:GG"; "GG:HH:II:JJ:KK:LL";
       "AA:BB:CC:DD:EE:ZZ"; "AA:BB:CC:DD:EE:F"; "AA:BB:CC:DD:EE:FFF";
       "AA:BB-CC:DD:EE:FF"; "AABBCCDDEEF"; "AABBCCDDEEFFF";
       "000000000000"; "11:11:11:11:11:11"; "   ";
       "AA:BB:CC:DD:EE:FF; rm -rf /"; "eval('malicious')"]%string
  = repeat (Return false) 15.
Proof. reflexivity. Qed.

Example test_validate_ip_valid_addresses (w : World) :
  map (fun s => value_of (validate_ip (lit s)) w)
      ["192.168.1.100"; "10.0.0.1"; "172.16.0.1"; "8.8.8.8"; "1.1.1.1";
       "192.168.0.255"; "10.255.255.254"; "172.31.255.255"; "8.8.4.4";
       "208.67.222.222"]%string
  = repeat (Return true) 10.
Proof. reflexivity. Qed.

Example test_validate_ip_invalid_formats (w : World) :
  map (fun s => value_of (validate_ip (lit s)) w)
      [""; "256.1.1.1"; "192.168.1"; "192.168.1.1.1"; "192.168.1.256";
       "abc.def.ghi.jkl"; "192.168.1.-1"; "192.168.01.1"; "192.168.1.01";
       "999.999.999.999"; "0.0.0.0"; "127.0.0.1"; "127.1.1.1";
       "255.255.255.255"; "192.168.1.1 "; " 192.168.1.1";
       "javascript:alert(1)"; "192.168.1.1`whoami`"]%string
  = repeat (Return false) 18.
Proof. reflexivity. Qed.

(* ================================================================== *)
(** * Part 5: facts about the built-ins                                 *)
(* ================================================================== *)

(** A statement about one character is settled on its 256 values. *)
Ltac each_char c :=
  destruct c as [[] [] [] [] [] [] [] []];
  try reflexivity; try discriminate.

Lemma str_eqb_eq (a b : str) : str_eqb a b = true <-> a = b.
Proof.
  revert b; induction a as [|x a IH]; intros [|y b]; simpl;
    try (split; [discriminate | congruence]); try tauto.
  rewrite andb_true_iff, IH. split.
  - intros [Hxy ->]. apply Ascii.eqb_eq in Hxy. now subst.
  - intros [= -> ->]. split; [apply Ascii.eqb_refl | reflexivity].
Qed.

(** ** Substrings *)

Lemma startswith_app (p s : str) : startswith (p ++ s) p = true.
Proof.
  induction p as [|x p IH]; simpl; [now destruct s|].
  now rewrite Ascii.eqb_refl.
Qed.

Lemma startswith_prefix (s p : str) :
  startswith s p = true -> exists rest, s = p ++ rest.
Proof.
  revert s; induction p as [|x p IH]; intros s H.
  - now exists s.
  - destruct s as [|y s]; [discriminate|]. simpl in H.
    apply andb_true_iff in H as [Hxy H]. apply Ascii.eqb_eq in Hxy; subst.
    destruct (IH _ H) as [rest ->]. now exists rest.
Qed.

Lemma contains_here (p s : str) : startswith s p = true -> contains p s = true.
Proof. intros H. destruct s; simpl in *; rewrite H; reflexivity. Qed.

Lemma contains_later (p : str) (c : ascii) (s : str) :
  contains p s = true -> contains p (c :: s) = true.
Proof. intros H. simpl. rewrite H. apply orb_true_r. Qed.

(** [p in s] holds exactly when [s] is some text, then [p], then some text. *)
Lemma contains_app (p a b : str) : contains p (a ++ p ++ b) = true.
Proof.
  induction a as [|c a IH].
  - simpl. apply contains_here, startswith_app.
  - simpl app. apply contains_later, IH.
Qed.

Lemma contains_occurrence (p s : str) :
  contains p s = true -> exists a b, s = a ++ p ++ b.
Proof.
  induction s as [|c s IH]; cbn [contains]; intros H.
  - destruct p; [now exists [], [] | discriminate].
  - apply orb_true_iff in H as [H|H].
    + apply startswith_prefix in H as [rest H]. exists [], rest. exact H.
    + destruct (IH H) as (a & b & ->). now exists (c :: a), b.
Qed.

(** Every character of a substring is a character of the string. *)
Lemma contains_char (p s : str) (x : ascii) :
  contains p s = true -> In x p -> In x s.
Proof.
  intros H Hx. destruct (contains_occurrence _ _ H) as (a & b & ->).
  apply in_or_app. right. apply in_or_app. now left.
Qed.

Lemma find_none_forall {A} (f : A -> bool) (l : list A) :
  find f l = None <-> forall x, In x l -> f x = false.
Proof.
  split.
  - intros H x Hx. exact (find_none f l H x Hx).
  - induction l as [|a l IH]; simpl; intros H; [reflexivity|].
    rewrite (H a (or_introl eq_refl)). apply IH. intros x Hx. apply H. now right.
Qed.

Lemma find_some_exists {A} (f : A -> bool) (l : list A) (x : A) :
  In x l -> f x = true -> exists y, find f l = Some y.
Proof.
  intros Hx Hf. destruct (find f l) as [y|] eqn:E; [now exists y|].
  rewrite (find_none f l E x Hx) in Hf. discriminate.
Qed.

(** ** Case and whitespace *)

Lemma lower_app (a b : str) : lower (a ++ b) = lower a ++ lower b.
Proof. apply map_app. Qed.

Lemma upper_app (a b : str) : upper (a ++ b) = upper a ++ upper b.
Proof. apply flat_map_app. Qed.

(** Upper-casing leaves whitespace alone and creates none. *)
Lemma upper_char_space (c : ascii) : isspace c = true -> upper_char c = [c].
Proof. each_char c. Qed.

Lemma upper_char_not_space (c : ascii) :
  isspace c = false -> forallb isspace (upper_char c) = false.
Proof. each_char c. Qed.

Lemma upper_lower_char (c : ascii) : upper_char (lower_char c) = upper_char c.
Proof. each_char c. Qed.

Lemma lstrip_split (s : str) :
  exists a, s = a ++ lstrip s /\ forallb isspace a = true.
Proof.
  induction s as [|c s (a & E & Ha)]; simpl.
  - now exists [].
  - destruct (isspace c) eqn:Hc.
    + exists (c :: a). simpl. rewrite Hc, Ha. split; [now f_equal | reflexivity].
    + now exists [].
Qed.

Lemma forallb_rev {A} (f : A -> bool) (l : list A) :
  forallb f (rev l) = forallb f l.
Proof.
  induction l as [|x l IH]; simpl; [reflexivity|].
  rewrite forallb_app, IH. simpl. rewrite andb_true_r. apply andb_comm.
Qed.

Lemma rstrip_split (s : str) :
  exists b, s = rstrip s ++ b /\ forallb isspace b = true.
Proof.
  unfold rstrip. destruct (lstrip_split (rev s)) as (a & E & Ha).
  exists (rev a). split.
  - rewrite <- rev_app_distr, <- E. symmetry. apply rev_involutive.
  - now rewrite forallb_rev.
Qed.

(** [strip] takes whitespace, and only whitespace, off both ends. *)
Lemma strip_split (s : str) :
  exists a b, s = a ++ strip s ++ b
              /\ forallb isspace a = true /\ forallb isspace b = true.
Proof.
  destruct (lstrip_split s) as (a & Ea & Ha).
  destruct (rstrip_split (lstrip s)) as (b & Eb & Hb).
  exists a, b. repeat split; try assumption.
  unfold strip. now rewrite <- Eb.
Qed.

Lemma remove_separators_app (a b : str) :
  remove_separators (a ++ b) = remove_separators a ++ remove_separators b.
Proof. apply filter_app. Qed.

Lemma remove_separators_upper_spaces (a : str) :
  forallb isspace a = true -> remove_separators (upper a) = [].
Proof.
  induction a as [|c a IH]; simpl; [reflexivity|].
  intros H. apply andb_true_iff in H as [Hc Ha].
  rewrite (upper_char_space c Hc). simpl.
  rewrite Hc, !orb_true_r. simpl. now apply IH.
Qed.

(** The text [validate_mac] checks and the text [create_magic_packet]
    converts are the same, although only the first is trimmed. *)
Lemma remove_separators_upper_strip (s : str) :
  remove_separators (upper (strip s)) = remove_separators (upper s).
Proof.
  destruct (strip_split s) as (a & b & E & Ha & Hb).
  rewrite E at 2.
  rewrite !upper_app, !remove_separators_app.
  rewrite (remove_separators_upper_spaces a Ha), (remove_separators_upper_spaces b Hb).
  now rewrite app_nil_r.
Qed.

(* ================================================================== *)
(** * Part 6: validate_mac                                              *)
(* ================================================================== *)

Ltac run_py :=
  cbv beta iota zeta delta
    [value_of world_after bind ret raise modify lift try_except try_finally
     int bytes_fromhex fst snd].

Ltac split_test :=
  match goal with
  | |- context [match find ?f ?l with _ => _ end] => destruct (find f l) eqn:?
  | |- context [if ?b then _ else _] => destruct b eqn:?
  end; run_py.

(** What a call of [validate_mac] can do: answer and leave the world as it
    is, or answer [False] after counting one security violation. *)
Lemma validate_mac_outcome (s : str) (w : World) :
  exists b, validate_mac s w = (Return b, w)
            \/ (b = false /\ validate_mac s w = (Return false, incr_security_violations w)).
Proof.
  unfold validate_mac; run_py.
  repeat split_test; eauto.
Qed.

(** The answer does not depend on the world. *)
Lemma validate_mac_value (s : str) (w w' : World) :
  value_of (validate_mac s) w = value_of (validate_mac s) w'.
Proof.
  unfold validate_mac; run_py.
  repeat split_test; reflexivity.
Qed.

Lemma validate_mac_true (s : str) (w w' : World) :
  validate_mac s w = (Return true, w') -> w' = w /\ mac_accepted s.
Proof.
  unfold validate_mac; run_py.
  repeat split_test; intros [= <-]; try discriminate.
  split; [reflexivity|].
  repeat match goal with
         | H : negb _ = false |- _ => apply negb_false_iff in H
         end.
  constructor; try assumption; fold (canonical_form s) in *; lia.
Qed.

Lemma validate_mac_accepts (s : str) (w : World) :
  mac_accepted s -> validate_mac s w = (Return true, w).
Proof.
  intros [H1 H2 H3 H4 H5 H6 H7 H8]. unfold canonical_form in *.
  unfold validate_mac; run_py.
  rewrite H1, H3, H4, H5, H6, H7.
  replace (MAX_MAC_LENGTH <? len s)%Z with false by (symmetry; apply Z.ltb_ge; lia).
  replace (distinct (remove_separators (upper (strip s))) <=? 1)%Z with false
    by (symmetry; apply Z.leb_gt; lia).
  reflexivity.
Qed.

(** ** The canonical form of an accepted address *)

Lemma hex_digit_value (c : ascii) :
  char_in c hex_digits = true ->
  c_isspace c = false /\ exists v, hex_value c = Some v.
Proof.
  destruct c as [[] [] [] [] [] [] [] []]; try discriminate;
    intros _; (split; [reflexivity | eexists; reflexivity]).
Qed.

(** [bytes.fromhex] succeeds on an even number of hex digits and gives one
    byte for every two of them. *)
Lemma fromhex_hex_digits (n : nat) (s : str) :
  length s = 2 * n ->
  forallb (fun c => char_in c hex_digits) s = true ->
  exists bs, fromhex_parse s = Some bs /\ length bs = n.
Proof.
  revert s; induction n as [|n IH]; intros s Hlen Hhex.
  - destruct s; [now exists [] | discriminate].
  - destruct s as [|c [|d s]]; try (simpl in Hlen; lia).
    simpl in Hhex. apply andb_true_iff in Hhex as [Hc Hhex].
    apply andb_true_iff in Hhex as [Hd Hhex].
    destruct (hex_digit_value c Hc) as [Hsp [hi Hhi]].
    destruct (hex_digit_value d Hd) as [_ [lo Hlo]].
    destruct (IH s) as (bs & E & Hbs); [simpl in Hlen; lia | exact Hhex |].
    exists (byte_of_nibbles hi lo :: bs).
    cbn [fromhex_parse]. rewrite Hsp, Hhi, Hlo, E. simpl. now rewrite Hbs.
Qed.

Lemma length_concat_repeat {A} (l : list A) (n : nat) :
  length (concat (repeat l n)) = n * length l.
Proof. induction n as [|n IH]; simpl; [reflexivity|]. rewrite length_app, IH. lia. Qed.

Lemma packet_length (mac_bytes : bytes) :
  length mac_bytes = 6 ->
  len (repeat xff 6 ++ concat (repeat mac_bytes 16)) = 102%Z.
Proof.
  intros H. unfold len.
  rewrite length_app, repeat_length, length_concat_repeat, H. reflexivity.
Qed.

Lemma distinct_repeat (c : ascii) (n : nat) : (distinct (repeat c n) <= 1)%Z.
Proof.
  unfold distinct, len. induction n as [|n IH]; simpl; [lia|].
  destruct (in_dec ascii_dec c (repeat c n)) as [Hin|Hout]; [exact IH|].
  destruct n as [|n]; simpl in *; [lia|]. exfalso. apply Hout. now left.
Qed.

(* ================================================================== *)
(** * Part 7: create_magic_packet                                       *)
(* ================================================================== *)

(** An accepted address gives the packet built from its canonical form. *)
Lemma create_magic_packet_accepted (s : str) (w : World) :
  mac_accepted s ->
  exists mac_bytes,
    fromhex_parse (canonical_form s) = Some mac_bytes
    /\ length mac_bytes = 6
    /\ create_magic_packet s w
       = (Return (Some (repeat xff 6 ++ concat (repeat mac_bytes 16))), w).
Proof.
  intros Hacc.
  destruct (fromhex_hex_digits 6 (canonical_form s)) as (mb & E & Hmb).
  - pose proof (acc_twelve s Hacc) as H. unfold len in H. lia.
  - apply (acc_hex s Hacc).
  - exists mb. repeat split; try assumption.
    unfold create_magic_packet; run_py.
    rewrite (validate_mac_accepts s w Hacc). run_py.
    rewrite <- remove_separators_upper_strip. fold (canonical_form s).
    rewrite E. run_py. now rewrite (packet_length mb Hmb).
Qed.

Lemma create_magic_packet_rejected (s : str) (w w' : World) :
  validate_mac s w = (Return false, w') ->
  create_magic_packet s w = (Return None, w').
Proof.
  intros H. unfold create_magic_packet; run_py. rewrite H. reflexivity.
Qed.

(** What a call of [create_magic_packet] can do. *)
Lemma create_magic_packet_outcome (s : str) (w : World) :
  (exists packet, create_magic_packet s w = (Return (Some packet), w)
                  /\ len packet = 102%Z
                  /\ validate_mac s w = (Return true, w))
  \/ (exists w', create_magic_packet s w = (Return None, w')
                 /\ validate_mac s w = (Return false, w')
                 /\ (w' = w \/ w' = incr_security_violations w)).
Proof.
  destruct (validate_mac_outcome s w) as [[|] [H|[Hb H]]]; try discriminate.
  - left. destruct (validate_mac_true s w w H) as [_ Hacc].
    destruct (create_magic_packet_accepted s w Hacc) as (mb & _ & Hmb & E).
    eexists. split; [exact E|]. split; [now apply packet_length | exact H].
  - right. exists w. auto using create_magic_packet_rejected.
  - right. exists (incr_security_violations w).
    auto using create_magic_packet_rejected.
Qed.

(** C1.  When [validate_mac] accepts its argument, [create_magic_packet]
    returns 102 bytes: six bytes 0xFF, then sixteen copies of the six bytes
    that the twelve hex characters of the canonical form stand for.  When
    the validation fails, or the conversion of the cleaned text would, it
    returns [None]; it never raises. *)
Theorem create_magic_packet_correct (s : str) (w : World) :
  (value_of (validate_mac s) w = Return true ->
   exists mac_bytes packet,
     fromhex_parse (canonical_form s) = Some mac_bytes
     /\ length mac_bytes = 6
     /\ value_of (create_magic_packet s) w = Return (Some packet)
     /\ length packet = 102
     /\ firstn 6 packet = [xff; xff; xff; xff; xff; xff]
     /\ skipn 6 packet = concat (repeat mac_bytes 16))
  /\ (value_of (validate_mac s) w = Return false
      \/ fromhex_parse (remove_separators (upper s)) = None ->
      value_of (create_magic_packet s) w = Return None).
Proof.
  split.
  - intros Hv. unfold value_of in Hv.
    destruct (validate_mac s w) as [r w'] eqn:E. simpl in Hv. subst r.
    destruct (validate_mac_true s w w' E) as [-> Hacc].
    destruct (create_magic_packet_accepted s w Hacc) as (mb & Hhex & Hmb & Hrun).
    exists mb, (repeat xff 6 ++ concat (repeat mb 16)).
    unfold value_of. rewrite Hrun.
    repeat split; try assumption.
    pose proof (packet_length mb Hmb) as H. unfold len in H. lia.
  - intros H.
    destruct (create_magic_packet_outcome s w)
      as [(packet & Hrun & _ & Hv) | (w' & Hrun & _)];
      unfold value_of in *; rewrite Hrun; [|reflexivity].
    exfalso. destruct H as [H|H].
    + rewrite Hv in H. discriminate.
    + destruct (validate_mac_true s w w Hv) as [_ Hacc].
      destruct (create_magic_packet_accepted s w Hacc) as (mb & Hhex & _).
      unfold canonical_form in Hhex.
      rewrite remove_separators_upper_strip in Hhex. congruence.
Qed.

Lemma create_magic_packet_correct_witness :
  value_of (validate_mac (lit "AA:BB:CC:DD:EE:FF")) initial_world = Return true
  /\ exists mac_bytes packet,
       fromhex_parse (canonical_form (lit "AA:BB:CC:DD:EE:FF")) = Some mac_bytes
       /\ length mac_bytes = 6
       /\ value_of (create_magic_packet (lit "AA:BB:CC:DD:EE:FF")) initial_world
          = Return (Some packet)
       /\ length packet = 102
       /\ firstn 6 packet = [xff; xff; xff; xff; xff; xff]
       /\ skipn 6 packet = concat (repeat mac_bytes 16).
Proof.
  split; [reflexivity|].
  apply (proj1 (create_magic_packet_correct (lit "AA:BB:CC:DD:EE:FF") initial_world)).
  reflexivity.
Defined.

(** The packet of the address used in the tests, byte for byte. *)
Example create_magic_packet_example (w : World) :
  value_of (create_magic_packet (lit "AA:BB:CC:DD:EE:FF")) w
  = Return (Some (repeat xff 6
                  ++ concat (repeat [xaa; xbb; xcc; xdd; xee; xff] 16))).
Proof.
  destruct (create_magic_packet_accepted (lit "AA:BB:CC:DD:EE:FF") w)
    as (mb & Hhex & _ & Hrun).
  - constructor; try reflexivity; now vm_compute.
  - unfold value_of. rewrite Hrun. vm_compute in Hhex. now injection Hhex as <-.
Qed.

(** C5.  [validate_mac] answers [False] whenever the twelve characters of
    the canonical form are one and the same, whatever the separators and
    the letter case of the input; the three addresses of the specification
    are instances. *)
Theorem validate_mac_rejects_uniform :
  (forall (s : str) (w : World) (c : ascii),
      canonical_form s = repeat c 12 ->
      value_of (validate_mac s) w = Return false)
  /\ (forall w, value_of (validate_mac (lit "00:00:00:00:00:00")) w = Return false)
  /\ (forall w, value_of (validate_mac (lit "FF:FF:FF:FF:FF:FF")) w = Return false)
  /\ (forall w, value_of (validate_mac (lit "AAAAAAAAAAAA")) w = Return false).
Proof.
  assert (G : forall (s : str) (w : World) (c : ascii),
             canonical_form s = repeat c 12 ->
             value_of (validate_mac s) w = Return false).
  { intros s w c Hc. unfold value_of.
    destruct (validate_mac_outcome s w) as [[|] [H|[Hb H]]];
      try discriminate; rewrite H; try reflexivity.
    exfalso. destruct (validate_mac_true s w w H) as [_ Hacc].
    pose proof (acc_distinct s Hacc) as Hd. rewrite Hc in Hd.
    pose proof (distinct_repeat c 12). lia. }
  split; [exact G|].
  split; [|split]; intros w.
  - now apply (G _ w "0").
  - now apply (G _ w "F").
  - now apply (G _ w "A").
Qed.

Lemma validate_mac_rejects_uniform_witness :
  canonical_form (lit "11-11-11-11-11-11") = repeat "1" 12
  /\ value_of (validate_mac (lit "11-11-11-11-11-11")) initial_world = Return false.
Proof.
  split; [reflexivity|].
  apply (proj1 validate_mac_rejects_uniform _ initial_world "1"). reflexivity.
Defined.

(* ================================================================== *)
(** * Part 8: validate_ip                                               *)
(* ================================================================== *)

(** The loop over the parts leaves the world alone; it ends with an answer
    or with the [ValueError] of [int]. *)
Lemma check_parts_outcome (parts : list str) (w : World) :
  exists r, check_parts parts w = (r, w)
            /\ (r = Raise ValueError \/ exists b, r = Return b).
Proof.
  induction parts as [|part rest IH]; cbn [check_parts]; run_py.
  - eexists; split; [reflexivity | right; eauto].
  - destruct ((1 <? len part)%Z && startswith part ["0"]).
    + eexists; split; [reflexivity | right; eauto].
    + destruct (int_parse part) as [num|]; run_py.
      * destruct ((num <? 0)%Z || (255 <? num)%Z); [|exact IH].
        eexists; split; [reflexivity | right; eauto].
      * eexists; split; [reflexivity | now left].
Qed.

Lemma check_parts_true (parts : list str) (w w' : World) :
  check_parts parts w = (Return true, w') <->
  w' = w /\ Forall (fun part => exists n, octet part n) parts.
Proof.
  induction parts as [|part rest IH]; cbn [check_parts]; run_py.
  - split; [intros [= <-]; auto | intros [-> _]; reflexivity].
  - assert (Hinv : Forall (fun part => exists n, octet part n) (part :: rest) ->
                   exists n, octet part n
                             /\ Forall (fun part => exists n, octet part n) rest).
    { intros H. inversion H as [|? ? [n Hn] Hrest]. eauto. }
    destruct ((1 <? len part)%Z && startswith part ["0"]) eqn:Hz.
    + split; [discriminate|]. intros [_ H].
      destruct (Hinv H) as (n & (Hz' & _) & _). congruence.
    + destruct (int_parse part) as [num|] eqn:Hint; run_py.
      * destruct ((num <? 0)%Z || (255 <? num)%Z) eqn:Hr.
        -- split; [discriminate|]. intros [_ H].
           destruct (Hinv H) as (n & (_ & Hn & Hrange) & _).
           rewrite Hint in Hn. injection Hn as <-. lia.
        -- rewrite IH. split; intros [-> H]; (split; [reflexivity|]).
           ++ constructor; [|exact H]. exists num.
              repeat split; try assumption; lia.
           ++ now destruct (Hinv H) as (_ & _ & Hrest).
      * split; [discriminate|]. intros [_ H].
        destruct (Hinv H) as (n & (_ & Hn & _) & _). congruence.
Qed.

(** What a call of [validate_ip] can do: the [ValueError] of [int] is
    caught, so there is always an answer. *)
Lemma validate_ip_outcome (s : str) (w : World) :
  exists b, validate_ip s w = (Return b, w)
            \/ (b = false /\ validate_ip s w = (Return false, incr_security_violations w)).
Proof.
  unfold validate_ip; run_py.
  repeat split_test; eauto.
  all: destruct (check_parts_outcome (split "." s) w) as (r & -> & [-> | [b ->]]);
    run_py; eauto.
  all: destruct b; cbn [negb]; run_py; eauto.
Qed.

(** The loop gives the same result in every world. *)
Lemma check_parts_value (parts : list str) (w w' : World) :
  fst (check_parts parts w) = fst (check_parts parts w').
Proof.
  induction parts as [|part rest IH]; cbn [check_parts]; run_py; [reflexivity|].
  destruct ((1 <? len part)%Z && startswith part ["0"]); [reflexivity|].
  destruct (int_parse part) as [num|]; run_py; [|reflexivity].
  destruct ((num <? 0)%Z || (255 <? num)%Z); [reflexivity | exact IH].
Qed.

Lemma validate_ip_value (s : str) (w w' : World) :
  value_of (validate_ip s) w = value_of (validate_ip s) w'.
Proof.
  unfold validate_ip; run_py.
  repeat split_test; try reflexivity.
  all: pose proof (check_parts_value (split "." s) w w') as Hsame.
  all: destruct (check_parts_outcome (split "." s) w) as (r & E & Hr).
  all: destruct (check_parts_outcome (split "." s) w') as (r' & E' & _).
  all: rewrite E, E' in *; simpl in Hsame; subst r'.
  all: destruct Hr as [-> | [b ->]]; run_py; [reflexivity|].
  all: destruct b; cbn [negb]; run_py; reflexivity.
Qed.


Lemma validate_ip_accepts (s : str) (w : World) :
  ip_accepted s -> validate_ip s w = (Return true, w).
Proof.
  intros [H1 H2 H3 H4 H5 H6 H7 H8 H9].
  destruct H7 as (p1 & p2 & p3 & p4 & n1 & n2 & n3 & n4 & Hs & O1 & O2 & O3 & O4).
  assert (Hc : check_parts (split "." s) w = (Return true, w)).
  { apply check_parts_true. split; [reflexivity|]. rewrite Hs.
    repeat constructor; eauto. }
  unfold validate_ip; run_py.
  rewrite H1, (proj2 (str_eqb_eq s (strip s)) H2), H3, H4, H6.
  replace (MAX_IP_LENGTH <? len s)%Z with false by (symmetry; apply Z.ltb_ge; lia).
  replace (len (split "." s) =? 4)%Z with true by now rewrite Hs.
  cbn [negb orb]. rewrite Hc, H8, H9. reflexivity.
Qed.

(* ================================================================== *)
(** * Part 9: the validators as a whole                                 *)
(* ================================================================== *)

(** C8.  On every string the two validators return a boolean and
    [create_magic_packet] returns a packet or [None]: no exception leaves
    them.  The only trace a call leaves is at most one counted security
    violation. *)
Theorem validation_never_raises (s : str) (w : World) :
  (exists b, value_of (validate_mac s) w = Return b)
  /\ (exists b, value_of (validate_ip s) w = Return b)
  /\ (exists p, value_of (create_magic_packet s) w = Return p)
  /\ counted_at_most_once w (world_after (validate_mac s) w)
  /\ counted_at_most_once w (world_after (validate_ip s) w)
  /\ counted_at_most_once w (world_after (create_magic_packet s) w).
Proof.
  unfold value_of, world_after, counted_at_most_once.
  destruct (validate_mac_outcome s w) as [bm [Hm | [_ Hm]]];
    destruct (validate_ip_outcome s w) as [bi [Hi | [_ Hi]]];
    destruct (create_magic_packet_outcome s w)
      as [(pk & Hc & _) | (w' & Hc & _ & [-> | ->])];
    rewrite Hm, Hi, Hc; cbn [fst snd];
    (split; [eexists; reflexivity|]); (split; [eexists; reflexivity|]);
    (split; [eexists; reflexivity|]); auto.
Qed.

(** C9.  The boolean a validator returns depends on its argument only:
    not on the counters, and not on the calls made before. *)
Theorem validators_deterministic (s : str) :
  (forall w w', value_of (validate_mac s) w = value_of (validate_mac s) w')
  /\ (forall w w', value_of (validate_ip s) w = value_of (validate_ip s) w')
  /\ (forall between w,
         value_of (validate_mac s) (run_calls between w) = value_of (validate_mac s) w
         /\ value_of (validate_ip s) (run_calls between w) = value_of (validate_ip s) w).
Proof.
  repeat split; intros; auto using validate_mac_value, validate_ip_value.
Qed.


(** The four addresses of the specification. *)
Example validate_ip_examples (w : World) :
  value_of (validate_ip (lit "192.168.01.1")) w = Return false
  /\ value_of (validate_ip (lit "192.168.1.100")) w = Return true
  /\ value_of (validate_ip (lit "127.0.0.1")) w = Return false
  /\ value_of (validate_ip (lit "0.0.0.0")) w = Return false.
Proof. repeat split. Qed.

(** C4.  An address whose first octet is 127 is accepted when the octet is
    not written as the three characters 127: the loopback test looks for
    the prefix "127." in the text, while the range test reads each part
    with [int], which takes a sign.  The same holds for an underscore
    between the digits. *)
Theorem validate_ip_accepts_signed_loopback (w : World) :
  value_of (validate_ip (lit "+127.0.0.1")) w = Return true
  /\ split "." (lit "+127.0.0.1") = [lit "+127"; lit "0"; lit "0"; lit "1"]
  /\ octet (lit "+127") 127
  /\ value_of (validate_ip (lit "1_27.0.0.1")) w = Return true
  /\ octet (lit "1_27") 127.
Proof. unfold octet. repeat split; try reflexivity; discriminate. Qed.

(** C10.  [validate_ip] accepts addresses with a part that is not a string
    of decimal digits.  A part has to pass the test for a leading zero and
    to be read by [int] as a number from 0 to 255, nothing more; a sign, a
    space or an underscore in a part are taken by [int]. *)
Theorem validate_ip_accepts_loose_octets :
  (forall (s : str) (w : World),
      ip_accepted s -> value_of (validate_ip s) w = Return true)
  /\ (forall w,
         value_of (validate_ip (lit "192.168.1.+5")) w = Return true
         /\ forallb is_digit (lit "+5") = false /\ octet (lit "+5") 5)
  /\ (forall w,
         value_of (validate_ip (lit "192.168. 5.1")) w = Return true
         /\ forallb is_digit (lit " 5") = false /\ octet (lit " 5") 5)
  /\ (forall w,
         value_of (validate_ip (lit "192.168.1_0.1")) w = Return true
         /\ forallb is_digit (lit "1_0") = false /\ octet (lit "1_0") 10).
Proof.
  split.
  - intros s w H. unfold value_of. now rewrite (validate_ip_accepts s w H).
  - unfold octet. repeat split; try reflexivity; discriminate.
Qed.

Lemma validate_ip_accepts_loose_octets_witness :
  ip_accepted (lit "10.0.0.-0")
  /\ value_of (validate_ip (lit "10.0.0.-0")) initial_world = Return true.
Proof.
  assert (H : ip_accepted (lit "10.0.0.-0")).
  { constructor; try reflexivity.
    - discriminate.
    - exists (lit "10"), (lit "0"), (lit "0"), (lit "-0"), 10%Z, 0%Z, 0%Z, 0%Z.
      unfold octet. repeat split; try reflexivity; discriminate. }
  split; [exact H|].
  exact (proj1 validate_ip_accepts_loose_octets _ initial_world H).
Defined.

(* ================================================================== *)
(** * Part 10: length caps and denylists                                *)
(* ================================================================== *)

Lemma longer_than_cap_nonempty (cap : Z) (s : str) :
  (0 <= cap)%Z -> (cap < len s)%Z -> is_empty s = false.
Proof. destruct s; [unfold len; simpl; lia | reflexivity]. Qed.

Lemma mentions_nonempty (patterns : list str) (s : str) :
  Forall (fun p => p <> []) patterns -> mentions patterns s -> is_empty s = false.
Proof.
  intros Hall (p & a & b & Hp & ->).
  rewrite Forall_forall in Hall. specialize (Hall p Hp).
  destruct a; [destruct p; [contradiction | reflexivity] | reflexivity].
Qed.

Lemma mentions_found (patterns : list str) (s : str) :
  mentions patterns s ->
  exists p, find (fun pattern => contains pattern s) patterns = Some p.
Proof.
  intros (p & a & b & Hp & ->).
  apply (find_some_exists _ patterns p Hp). apply contains_app.
Qed.

(** A signature written in any letter case shows in the lower-cased text. *)
Lemma mentions_any_case_lower (patterns : list str) (s : str) :
  mentions_any_case patterns s -> mentions patterns (lower s).
Proof.
  intros (p & a & x & b & Hp & -> & Hx).
  exists p, (lower a), (lower b). split; [exact Hp|].
  now rewrite !lower_app, Hx.
Qed.

Lemma mac_patterns_nonempty : Forall (fun p : str => p <> []) mac_dangerous_patterns.
Proof. repeat constructor; discriminate. Qed.

Lemma ip_patterns_nonempty : Forall (fun p : str => p <> []) ip_dangerous_patterns.
Proof. repeat constructor; discriminate. Qed.

Lemma lower_empty (s : str) : is_empty (lower s) = is_empty s.
Proof. now destruct s. Qed.

(** [validate_mac] counts whatever is too long or carries a signature,
    before it looks at the structure of the text. *)
Lemma validate_mac_violation (s : str) (w : World) :
  (MAX_MAC_LENGTH < len s)%Z \/ mentions_any_case mac_dangerous_patterns s ->
  validate_mac s w = (Return false, incr_security_violations w).
Proof.
  intros H. unfold validate_mac; run_py.
  assert (He : is_empty s = false).
  { destruct H as [H|H].
    - now apply (longer_than_cap_nonempty MAX_MAC_LENGTH).
    - rewrite <- lower_empty.
      apply (mentions_nonempty _ _ mac_patterns_nonempty),
        mentions_any_case_lower, H. }
  rewrite He.
  destruct (MAX_MAC_LENGTH <? len s)%Z eqn:Hlen; [reflexivity|].
  destruct H as [H|H]; [apply Z.ltb_ge in Hlen; lia|].
  destruct (mentions_found _ _ (mentions_any_case_lower _ _ H)) as [p ->].
  reflexivity.
Qed.

(** [validate_ip] does the same once the text has passed the test for
    surrounding whitespace, tabs and newlines, which comes first. *)
Lemma validate_ip_violation (s : str) (w : World) :
  s = strip s -> char_in "009" s = false -> char_in "010" s = false ->
  (MAX_IP_LENGTH < len s)%Z \/ mentions ip_dangerous_patterns s ->
  validate_ip s w = (Return false, incr_security_violations w).
Proof.
  intros Hs Ht Hn H. unfold validate_ip; run_py.
  assert (He : is_empty s = false).
  { destruct H as [H|H].
    - now apply (longer_than_cap_nonempty MAX_IP_LENGTH).
    - apply (mentions_nonempty _ _ ip_patterns_nonempty), H. }
  rewrite He, (proj2 (str_eqb_eq s (strip s)) Hs), Ht, Hn. cbn [negb orb].
  destruct (MAX_IP_LENGTH <? len s)%Z eqn:Hlen; [reflexivity|].
  destruct H as [H|H]; [apply Z.ltb_ge in Hlen; lia|].
  destruct (mentions_found _ _ H) as [p ->].
  reflexivity.
Qed.

(** Text that [validate_ip] refuses for its whitespace is not counted,
    whatever else it carries. *)
Lemma validate_ip_padded (s : str) (w : World) :
  s <> strip s \/ char_in "009" s = true \/ char_in "010" s = true ->
  validate_ip s w = (Return false, w).
Proof.
  intros H. unfold validate_ip; run_py.
  destruct (is_empty s); [reflexivity|].
  destruct (str_eqb s (strip s)) eqn:E; cbn [negb orb]; [|reflexivity].
  apply str_eqb_eq in E.
  destruct H as [H | [-> | ->]]; [contradiction | reflexivity |].
  now rewrite orb_true_r.
Qed.

Lemma violations_incr (w : World) :
  violations (incr_security_violations w) = (violations w + 1)%Z.
Proof. reflexivity. Qed.

(** C3, as stated, fails for [validate_ip]: the address " <script>" carries
    the signature "<" and is refused, but the counter stays where it was,
    because the test for surrounding whitespace answers first. *)
Lemma padded_signature_not_counted :
  mentions ip_dangerous_patterns (lit " <script>")
  /\ value_of (validate_ip (lit " <script>")) initial_world = Return false
  /\ violations (world_after (validate_ip (lit " <script>")) initial_world)
     = violations initial_world
  /\ ~ counts_every_violation validate_ip MAX_IP_LENGTH (mentions ip_dangerous_patterns).
Proof.
  assert (Hm : mentions ip_dangerous_patterns (lit " <script>")).
  { exists (lit "<"), (lit " "), (lit "script>"). split; [|reflexivity].
    simpl. tauto. }
  repeat split; try assumption; try reflexivity.
  intros Hclaim.
  destruct (Hclaim (lit " <script>") initial_world (or_intror Hm)) as [_ Hlt].
  vm_compute in Hlt. discriminate.
Qed.

(** C3, amended.  [validate_mac] refuses and counts every text that is
    longer than 50 characters or carries one of its signatures in some
    letter case, whatever the rest of the text is.  [validate_ip] refuses
    and counts every text longer than 15 characters or carrying one of its
    signatures as written, provided the text has no whitespace at its ends
    and no tab or newline inside.  The counter grows by one. *)
Theorem violations_are_counted :
  counts_every_violation validate_mac MAX_MAC_LENGTH
                         (mentions_any_case mac_dangerous_patterns)
  /\ (forall (s : str) (w : World),
         s = strip s -> char_in "009" s = false -> char_in "010" s = false ->
         (MAX_IP_LENGTH < len s)%Z \/ mentions ip_dangerous_patterns s ->
         value_of (validate_ip s) w = Return false
         /\ (violations w < violations (world_after (validate_ip s) w))%Z)
  /\ (forall (s : str) (w : World),
         (MAX_MAC_LENGTH < len s)%Z \/ mentions_any_case mac_dangerous_patterns s ->
         violations (world_after (validate_mac s) w) = (violations w + 1)%Z)
  /\ (forall (s : str) (w : World),
         s = strip s -> char_in "009" s = false -> char_in "010" s = false ->
         (MAX_IP_LENGTH < len s)%Z \/ mentions ip_dangerous_patterns s ->
         violations (world_after (validate_ip s) w) = (violations w + 1)%Z).
Proof.
  unfold counts_every_violation, value_of, world_after.
  repeat split; intros;
    try rewrite validate_mac_violation by assumption;
    try rewrite validate_ip_violation by assumption;
    cbn [fst snd]; try reflexivity; rewrite violations_incr; lia.
Qed.

Lemma violations_are_counted_witness :
  (mentions_any_case mac_dangerous_patterns (lit "AA:BB:CC:DD:EE:FF'; DROP TABLE;")
   /\ value_of (validate_mac (lit "AA:BB:CC:DD:EE:FF'; DROP TABLE;")) initial_world
      = Return false
   /\ (violations initial_world
       < violations (world_after (validate_mac (lit "AA:BB:CC:DD:EE:FF'; DROP TABLE;"))
                                 initial_world))%Z)
  /\ (mentions ip_dangerous_patterns (lit "192.168.1.1<b>")
      /\ value_of (validate_ip (lit "192.168.1.1<b>")) initial_world = Return false
      /\ (violations initial_world
          < violations (world_after (validate_ip (lit "192.168.1.1<b>")) initial_world))%Z).
Proof.
  assert (Hm : mentions_any_case mac_dangerous_patterns
                 (lit "AA:BB:CC:DD:EE:FF'; DROP TABLE;")).
  { exists (lit "drop table"), (lit "AA:BB:CC:DD:EE:FF'; "), (lit "DROP TABLE"), (lit ";").
    repeat split. simpl. tauto. }
  assert (Hi : mentions ip_dangerous_patterns (lit "192.168.1.1<b>")).
  { exists (lit "<"), (lit "192.168.1.1"), (lit "b>"). split; [|reflexivity].
    simpl. tauto. }
  split.
  - split; [exact Hm|].
    exact (proj1 violations_are_counted _ initial_world (or_intror Hm)).
  - split; [exact Hi|].
    apply (proj1 (proj2 violations_are_counted) _ initial_world);
      [reflexivity | reflexivity | reflexivity | right; exact Hi].
Defined.

(* ================================================================== *)
(** * Part 11: spellings of one address                                 *)
(* ================================================================== *)

(** On a text that is short enough, carries no signature and does not mix
    separators, the answer is read off the canonical form. *)
Lemma validate_mac_benign (s : str) (w : World) :
  is_empty s = false ->
  (len s <= MAX_MAC_LENGTH)%Z ->
  find (fun pattern => contains pattern (lower s)) mac_dangerous_patterns = None ->
  char_in ":" (strip s) && char_in "-" (strip s) = false ->
  validate_mac s w = (Return (canonical_checks (canonical_form s)), w).
Proof.
  intros H1 H2 H3 H4. unfold validate_mac, canonical_checks, canonical_form; run_py.
  rewrite H1, H3, H4.
  replace (MAX_MAC_LENGTH <? len s)%Z with false by (symmetry; apply Z.ltb_ge; lia).
  set (mac_clean := remove_separators (upper (strip s))).
  destruct (len mac_clean =? 12)%Z; cbn [negb andb]; [|reflexivity].
  destruct (forallb _ mac_clean); cbn [negb andb]; [|reflexivity].
  destruct (str_in mac_clean invalid_macs); cbn [negb andb]; [reflexivity|].
  destruct (distinct mac_clean <=? 1)%Z; reflexivity.
Qed.

(** ** One character *)

Lemma hex_digit_hexish (c : ascii) : char_in c hex_digits = true -> hexish c = true.
Proof. each_char c. Qed.

Lemma hex_digit_upper (c : ascii) : char_in c hex_digits = true -> upper_char c = [c].
Proof. each_char c. Qed.

Lemma hexish_not_space (x : ascii) : hexish x = true -> isspace x = false.
Proof. each_char x. Qed.

Lemma hexish_not_colon (x : ascii) : hexish x = true -> Ascii.eqb ":" x = false.
Proof. each_char x. Qed.

Lemma hexish_not_hyphen (x : ascii) : hexish x = true -> Ascii.eqb "-" x = false.
Proof. each_char x. Qed.

Lemma hexish_kept (x : ascii) :
  hexish x = true -> Ascii.eqb x ":" || Ascii.eqb x "-" || isspace x = false.
Proof. each_char x. Qed.

Lemma hexish_lower_spelling (x : ascii) :
  hexish x = true -> spelling_char (lower_char x) = true.
Proof. each_char x. Qed.

Lemma hexish_lower_not_hyphen (x : ascii) :
  hexish x = true -> Ascii.eqb "-" (lower_char x) = false.
Proof. each_char x. Qed.

(** ** Signatures *)

(** Every signature but the double hyphen needs a character that is
    neither a hex digit nor a separator. *)
Lemma mac_patterns_foreign :
  forallb (fun p => foreign p || str_eqb p (lit "--")) mac_dangerous_patterns = true.
Proof. reflexivity. Qed.

Lemma foreign_absent (p s : str) :
  foreign p = true -> forallb spelling_char s = true -> contains p s = false.
Proof.
  intros Hp Hs. destruct (contains p s) eqn:E; [exfalso | reflexivity].
  apply existsb_exists in Hp as (x & Hx & Hforeign).
  pose proof (contains_char p s x E Hx) as Hin.
  rewrite forallb_forall in Hs. rewrite (Hs x Hin) in Hforeign. discriminate.
Qed.

Lemma no_signature_in_spelling (s : str) :
  forallb spelling_char s = true ->
  contains (lit "--") s = false ->
  find (fun pattern => contains pattern s) mac_dangerous_patterns = None.
Proof.
  intros Hs Hh. apply find_none_forall. intros p Hp.
  pose proof mac_patterns_foreign as Hall. rewrite forallb_forall in Hall.
  specialize (Hall p Hp). apply orb_true_iff in Hall as [Hf | He].
  - now apply foreign_absent.
  - apply str_eqb_eq in He. now subst.
Qed.

(** ** A spelled address *)

Lemma remove_separators_keep (c : ascii) (r : str) :
  Ascii.eqb c ":" || Ascii.eqb c "-" || isspace c = false ->
  remove_separators (c :: r) = c :: remove_separators r.
Proof. intros H. unfold remove_separators. cbn [filter]. now rewrite H. Qed.

Lemma remove_separators_colon (r : str) :
  remove_separators (":" :: r) = remove_separators r.
Proof. reflexivity. Qed.

Lemma remove_separators_hyphen (r : str) :
  remove_separators ("-" :: r) = remove_separators r.
Proof. reflexivity. Qed.

Ltac hex_rewrite lemma :=
  repeat match goal with
         | H : hexish ?x = true |- _ => rewrite (lemma x H)
         end.

(** A spelling of a canonical address passes every test made before the
    canonical form is looked at, and its canonical form is that address. *)
Lemma spelled_variant (c digits : str) (style : separator_style) :
  is_canonical c -> lower digits = lower c ->
  let v := spell (separator style) digits in
  is_empty v = false
  /\ (len v <= MAX_MAC_LENGTH)%Z
  /\ find (fun pattern => contains pattern (lower v)) mac_dangerous_patterns = None
  /\ char_in ":" (strip v) && char_in "-" (strip v) = false
  /\ canonical_form v = c.
Proof.
  intros [Hlen Hhex] Hlow.
  destruct c as [|c1 [|c2 [|c3 [|c4 [|c5 [|c6 [|c7 [|c8 [|c9 [|c10 [|c11 [|c12 [|]]]]]]]]]]]]];
    try discriminate Hlen. clear Hlen.
  destruct digits
    as [|x1 [|x2 [|x3 [|x4 [|x5 [|x6 [|x7 [|x8 [|x9 [|x10 [|x11 [|x12 [|]]]]]]]]]]]]];
    try discriminate Hlow.
  cbn [lower map] in Hlow.
  injection Hlow as E1 E2 E3 E4 E5 E6 E7 E8 E9 E10 E11 E12.
  cbn [forallb] in Hhex.
  repeat (apply andb_true_iff in Hhex as [? Hhex]). clear Hhex.
  (* each digit is a hex digit in some case, and its upper case is known *)
  repeat match goal with
         | E : lower_char ?x = lower_char ?c, H : char_in ?c hex_digits = true |- _ =>
             assert (hexish x = true)
               by (unfold hexish; rewrite E; exact (hex_digit_hexish c H));
             assert (upper_char x = [c])
               by (rewrite <- upper_lower_char, E, upper_lower_char;
                   exact (hex_digit_upper c H));
             pose proof (hexish_kept c (hex_digit_hexish c H));
             clear E H
         end.
  intros v. subst v.
  split; [destruct style; reflexivity|].
  split; [destruct style; unfold len, MAX_MAC_LENGTH;
          cbn [separator spell app length]; lia|].
  split.
  { apply no_signature_in_spelling.
    - destruct style; cbn [separator spell app lower map forallb];
        hex_rewrite hexish_lower_spelling; reflexivity.
    - destruct style;
        cbn [separator spell app lower map contains startswith lit list_ascii_of_string];
        hex_rewrite hexish_lower_not_hyphen; reflexivity. }
  split.
  { assert (Hstrip : strip (spell (separator style) [x1; x2; x3; x4; x5; x6; x7; x8; x9; x10; x11; x12])
                     = spell (separator style) [x1; x2; x3; x4; x5; x6; x7; x8; x9; x10; x11; x12]).
    { unfold strip, rstrip.
      destruct style; cbn [separator spell app lstrip];
        rewrite (hexish_not_space x1) by assumption;
        cbn [rev app lstrip];
        rewrite (hexish_not_space x12) by assumption;
        reflexivity. }
    rewrite Hstrip. unfold char_in.
    destruct style; cbn [separator spell app existsb];
      hex_rewrite hexish_not_colon; hex_rewrite hexish_not_hyphen;
      reflexivity. }
  unfold canonical_form. rewrite remove_separators_upper_strip. unfold upper.
  destruct style; cbn [separator spell app flat_map];
    repeat match goal with H : upper_char _ = [_] |- _ => rewrite H; clear H end;
    change (upper_char ":") with [":"]; change (upper_char "-") with ["-"];
    cbn [app];
    repeat first [ rewrite remove_separators_keep by assumption
                 | rewrite remove_separators_colon
                 | rewrite remove_separators_hyphen ];
    reflexivity.
Qed.

(** What the two functions do with a spelling of [c] is read off [c]. *)
Lemma validate_mac_variant (c v : str) (w : World) :
  is_canonical c -> variant_of c v ->
  validate_mac v w = (Return (canonical_checks c), w) /\ canonical_form v = c.
Proof.
  intros Hc (style & digits & Hlow & ->).
  destruct (spelled_variant c digits style Hc Hlow) as (H1 & H2 & H3 & H4 & H5).
  split; [|exact H5].
  rewrite <- H5 at 1. now apply validate_mac_benign.
Qed.

(** C2.  All spellings of one canonical address (colons, hyphens or no
    separator, letters in any case) get the same answer from
    [validate_mac]; when the answer is [True], [create_magic_packet] gives
    the same 102 bytes for all of them. *)
Theorem variants_agree (c v1 v2 : str) (w1 w2 : World) :
  is_canonical c -> variant_of c v1 -> variant_of c v2 ->
  value_of (validate_mac v1) w1 = value_of (validate_mac v2) w2
  /\ (value_of (validate_mac v1) w1 = Return true ->
      exists packet,
        length packet = 102
        /\ value_of (create_magic_packet v1) w1 = Return (Some packet)
        /\ value_of (create_magic_packet v2) w2 = Return (Some packet)).
Proof.
  intros Hc Hv1 Hv2.
  destruct (validate_mac_variant c v1 w1 Hc Hv1) as [R1 C1].
  destruct (validate_mac_variant c v2 w2 Hc Hv2) as [R2 C2].
  unfold value_of. rewrite R1, R2. cbn [fst]. split; [reflexivity|].
  intros [= Hok]. rewrite Hok in R1, R2.
  destruct (validate_mac_true v1 w1 w1 R1) as [_ A1].
  destruct (validate_mac_true v2 w2 w2 R2) as [_ A2].
  destruct (create_magic_packet_accepted v1 w1 A1) as (mb1 & Hex1 & Hmb1 & Run1).
  destruct (create_magic_packet_accepted v2 w2 A2) as (mb2 & Hex2 & _ & Run2).
  rewrite C1 in Hex1. rewrite C2 in Hex2.
  assert (mb2 = mb1) as -> by congruence.
  exists (repeat xff 6 ++ concat (repeat mb1 16)).
  rewrite Run1, Run2. cbn [fst]. repeat split.
  pose proof (packet_length mb1 Hmb1) as H. unfold len in H. lia.
Qed.

Lemma variants_agree_witness :
  value_of (validate_mac (lit "aa:bb:cc:dd:ee:01")) initial_world
  = value_of (validate_mac (lit "AA-Bb-cC-DD-EE-01")) initial_world
  /\ (value_of (validate_mac (lit "aa:bb:cc:dd:ee:01")) initial_world = Return true ->
      exists packet,
        length packet = 102
        /\ value_of (create_magic_packet (lit "aa:bb:cc:dd:ee:01")) initial_world
           = Return (Some packet)
        /\ value_of (create_magic_packet (lit "AA-Bb-cC-DD-EE-01")) initial_world
           = Return (Some packet)).
Proof.
  apply (variants_agree (lit "AABBCCDDEE01")).
  - split; reflexivity.
  - exists Colons, (lit "aabbccddee01"). split; reflexivity.
  - exists Hyphens, (lit "AABbcCDDEE01"). split; reflexivity.
Defined.

(* ================================================================== *)
(** * Part 12: send_magic_packet                                        *)
(* ================================================================== *)

Section Sending.

(** The operating system the call runs on. *)
Variable h : Host.

(** No packet: nothing is sent. *)
Lemma send_magic_packet_rejected (s : str) (tip : option str) (w w' : World) :
  create_magic_packet s w = (Return None, w') ->
  send_magic_packet h s tip w
  = (Return (Failed (lit "Invalid MAC address format") s), w').
Proof. intros H. unfold send_magic_packet; run_py. now rewrite H. Qed.

(** A packet: the run of the function, outcome by outcome. *)
Lemma send_magic_packet_built (s : str) (tip : option str) (w : World)
    (packet : bytes) :
  create_magic_packet s w = (Return (Some packet), w) ->
  len packet = 102%Z ->
  send_magic_packet h s tip w =
  if socket_available h then
    let dest := (configured_broadcast_ip h, 9%Z) in
    let w2 := record_event (SentTo packet dest) (record_event SocketOpened w) in
    match sendto_outcome h packet dest with
    | Transmitted n =>
        if (n =? len packet)%Z
        then (Return (Sent s tip (configured_broadcast_ip h) 9 n (utcnow_isoformat h)),
              record_event SocketClosed (incr_magic_packets_sent w2))
        else (Return (Failed (lit "Incomplete packet transmission") s),
              record_event SocketClosed w2)
    | TimedOut => (Return (Failed (lit "Network timeout") s), record_event SocketClosed w2)
    | SendFailed => (Return (Failed (lit "Network error") s), record_event SocketClosed w2)
    end
  else (Return (Failed (lit "Network error") s), w).
Proof.
  intros Hc Hlen. unfold send_magic_packet, open_socket, sendto; run_py.
  rewrite Hc. destruct packet as [|b packet]; [discriminate Hlen|].
  destruct (socket_available h); run_py; [|reflexivity].
  destruct (sendto_outcome h (b :: packet) (configured_broadcast_ip h, 9%Z));
    run_py; try reflexivity.
  destruct (n =? len (b :: packet))%Z; reflexivity.
Qed.

(** C7.  The result says success exactly when a packet was built, a socket
    was there and [sendto] reported as many bytes as the packet has, 102;
    [magic_packets_sent] grows by one in that case and stays as it is in
    every other: invalid address, partial send, timeout, socket error. *)
Theorem send_success_iff_full_transmission (s : str) (tip : option str)
    (w : World) :
  exists r,
    value_of (send_magic_packet h s tip) w = Return r
    /\ (success r = true <->
        exists packet,
          value_of (create_magic_packet s) w = Return (Some packet)
          /\ socket_available h = true
          /\ sendto_outcome h packet (configured_broadcast_ip h, 9%Z)
             = Transmitted (len packet)
          /\ len packet = 102%Z)
    /\ magic_packets_sent (server_stats (world_after (send_magic_packet h s tip) w))
       = (magic_packets_sent (server_stats w) + (if success r then 1 else 0))%Z.
Proof.
  unfold value_of, world_after.
  destruct (create_magic_packet_outcome s w)
    as [(packet & Hc & Hlen & _) | (w' & Hc & _ & Hw')].
  - rewrite (send_magic_packet_built s tip w packet Hc Hlen), Hc. cbn [fst].
    destruct (socket_available h) eqn:Hsock.
    + cbv zeta.
      destruct (sendto_outcome h packet (configured_broadcast_ip h, 9%Z)) as [n| |] eqn:Hout.
      * destruct (n =? len packet)%Z eqn:Hn.
        -- apply Z.eqb_eq in Hn. subst n.
           eexists. split; [reflexivity|]. split.
           ++ split; [intros _ | reflexivity]. exists packet. auto.
           ++ reflexivity.
        -- apply Z.eqb_neq in Hn.
           eexists. split; [reflexivity|]. split.
           ++ split; [discriminate|]. intros (p & Hp & _ & Hp' & _).
              injection Hp as <-. rewrite Hout in Hp'. injection Hp' as Hp'.
              contradiction.
           ++ cbn. lia.
      * eexists. split; [reflexivity|]. split.
        -- split; [discriminate|]. intros (p & Hp & _ & Hp' & _).
           injection Hp as <-. rewrite Hout in Hp'. discriminate.
        -- cbn. lia.
      * eexists. split; [reflexivity|]. split.
        -- split; [discriminate|]. intros (p & Hp & _ & Hp' & _).
           injection Hp as <-. rewrite Hout in Hp'. discriminate.
        -- cbn. lia.
    + eexists. split; [reflexivity|]. split.
      * split; [discriminate|]. intros (p & _ & Hp & _). discriminate.
      * cbn. lia.
  - rewrite (send_magic_packet_rejected s tip w w' Hc), Hc. cbn [fst snd].
    eexists. split; [reflexivity|]. split.
    + split; [discriminate|]. intros (p & Hp & _). discriminate.
    + destruct Hw' as [-> | ->]; cbn; lia.
Qed.

(** C6.  Every datagram a call hands to [sendto] goes to the configured
    broadcast address, port 9.  The caller's [target_ip] changes neither
    the world the call leaves (datagrams and counters) nor the result,
    apart from the field that repeats it. *)
Theorem send_destination_is_configured (s : str) (tip tip' : option str)
    (w : World) :
  (forall data dest,
      In (SentTo data dest) (network (world_after (send_magic_packet h s tip) w)) ->
      In (SentTo data dest) (network w)
      \/ dest = (configured_broadcast_ip h, 9%Z))
  /\ world_after (send_magic_packet h s tip') w
     = world_after (send_magic_packet h s tip) w
  /\ exists r r',
      value_of (send_magic_packet h s tip) w = Return r
      /\ value_of (send_magic_packet h s tip') w = Return r'
      /\ forget_target_ip r' = forget_target_ip r.
Proof.
  unfold value_of, world_after.
  destruct (create_magic_packet_outcome s w)
    as [(packet & Hc & Hlen & _) | (w' & Hc & _ & Hw')].
  - rewrite !(send_magic_packet_built s _ w packet Hc Hlen).
    destruct (socket_available h); [cbv zeta|].
    + destruct (sendto_outcome h packet (configured_broadcast_ip h, 9%Z)) as [n| |];
        [destruct (n =? len packet)%Z| |]; cbn [fst snd];
        (split; [|split; [reflexivity | eexists; eexists; repeat split]]);
        intros data dest; cbn;
        intros [H | [H | [H | H]]]; try discriminate; auto;
        injection H as _ <-; auto.
    + cbn [fst snd]. split; [auto|]. split; [reflexivity|].
      eexists; eexists; repeat split.
  - rewrite !(send_magic_packet_rejected s _ w w' Hc). cbn [fst snd].
    split; [|split; [reflexivity | eexists; eexists; repeat split]].
    intros data dest H. left. destruct Hw' as [-> | ->]; exact H.
Qed.

End Sending.

Lemma send_success_iff_full_transmission_witness :
  let h := mkHost None true (fun data _ => Transmitted (len data)) (lit "2024-01-01T00:00:00+00:00") in
  let s := lit "AA:BB:CC:DD:EE:FF" in
  exists r,
    value_of (send_magic_packet h s None) initial_world = Return r
    /\ (success r = true <->
        exists packet,
          value_of (create_magic_packet s) initial_world = Return (Some packet)
          /\ socket_available h = true
          /\ sendto_outcome h packet (configured_broadcast_ip h, 9%Z)
             = Transmitted (len packet)
          /\ len packet = 102%Z)
    /\ magic_packets_sent
         (server_stats (world_after (send_magic_packet h s None) initial_world))
       = (magic_packets_sent (server_stats initial_world)
          + (if success r then 1 else 0))%Z.
Proof.
  intros h s. exact (send_success_iff_full_transmission h s None initial_world).
Defined.

Lemma send_destination_is_configured_witness :
  let h := mkHost (Some (lit "10.0.0.255")) true (fun data _ => Transmitted (len data))
                  (lit "2024-01-01T00:00:00+00:00") in
  let w' := world_after (send_magic_packet h (lit "AA:BB:CC:DD:EE:FF")
                                           (Some (lit "10.0.0.7"))) initial_world in
  exists data,
    In (SentTo data (lit "10.0.0.255", 9%Z)) (network w')
    /\ (In (SentTo data (lit "10.0.0.255", 9%Z)) (network initial_world)
        \/ (lit "10.0.0.255", 9%Z) = (configured_broadcast_ip h, 9%Z)).
Proof.
  intros h w'.
  exists (repeat xff 6 ++ concat (repeat [xaa; xbb; xcc; xdd; xee; xff] 16)).
  assert (Hin : In (SentTo (repeat xff 6 ++ concat (repeat [xaa; xbb; xcc; xdd; xee; xff] 16))
                           (lit "10.0.0.255", 9%Z)) (network w')).
  { right. left. reflexivity. }
  split; [exact Hin|].
  exact (proj1 (send_destination_is_configured h (lit "AA:BB:CC:DD:EE:FF")
                  (Some (lit "10.0.0.7")) None initial_world) _ _ Hin).
Defined.

(* ================================================================== *)
(** * Part 13: more on validate_mac                                     *)
(* ================================================================== *)

(** Trimming keeps every character that is not whitespace. *)
Lemma char_in_strip (c : ascii) (s : str) :
  isspace c = false -> char_in c s = true -> char_in c (strip s) = true.
Proof.
  intros Hc Hin. destruct (strip_split s) as (a & b & E & Ha & Hb).
  assert (Hout : forall l, forallb isspace l = true -> char_in c l = false).
  { intros l Hl. unfold char_in. destruct (existsb (Ascii.eqb c) l) eqn:Ex; [|reflexivity].
    apply existsb_exists in Ex as (x & Hx & Hcx). apply Ascii.eqb_eq in Hcx. subst x.
    rewrite forallb_forall in Hl. rewrite (Hl c Hx) in Hc. discriminate. }
  rewrite E in Hin. unfold char_in in *.
  rewrite !existsb_app in Hin.
  rewrite (Hout a Ha), (Hout b Hb), orb_false_r in Hin. exact Hin.
Qed.

(** X1.  An address with a colon and a hyphen in it is refused, wherever
    the two stand and whatever else the text holds. *)
Theorem validate_mac_rejects_mixed_separators (s : str) (w : World) :
  char_in ":" s = true -> char_in "-" s = true ->
  value_of (validate_mac s) w = Return false.
Proof.
  intros Hc Hh. unfold value_of.
  destruct (validate_mac_outcome s w) as [[|] [H | [_ H]]];
    rewrite H; try reflexivity.
  exfalso. destruct (validate_mac_true s w w H) as [_ Hacc].
  pose proof (acc_separators s Hacc) as Hsep.
  rewrite (char_in_strip ":" s), (char_in_strip "-" s) in Hsep
    by (assumption || reflexivity).
  discriminate.
Qed.

Lemma validate_mac_rejects_mixed_separators_witness :
  char_in ":" (lit "AA:BB-CC:DD:EE:FF") = true
  /\ char_in "-" (lit "AA:BB-CC:DD:EE:FF") = true
  /\ value_of (validate_mac (lit "AA:BB-CC:DD:EE:FF")) initial_world = Return false.
Proof.
  split; [reflexivity|]. split; [reflexivity|].
  apply validate_mac_rejects_mixed_separators; reflexivity.
Defined.

(** X2.  Among texts that pass the tests made on the raw input (not
    empty, at most 50 characters, no signature, no mix of separators), the
    verdict and the packet depend on the canonical form alone: where the
    separators and the whitespace stand does not matter. *)
Theorem canonical_form_decides (s1 s2 : str) (w1 w2 : World) :
  plain_text s1 -> plain_text s2 ->
  canonical_form s1 = canonical_form s2 ->
  value_of (validate_mac s1) w1 = value_of (validate_mac s2) w2
  /\ value_of (create_magic_packet s1) w1 = value_of (create_magic_packet s2) w2.
Proof.
  intros (A1 & A2 & A3 & A4) (B1 & B2 & B3 & B4) Hc.
  pose proof (validate_mac_benign s1 w1 A1 A2 A3 A4) as R1.
  pose proof (validate_mac_benign s2 w2 B1 B2 B3 B4) as R2.
  rewrite <- Hc in R2.
  unfold value_of. rewrite R1, R2. split; [reflexivity|].
  destruct (canonical_checks (canonical_form s1)).
  - destruct (validate_mac_true s1 w1 w1 R1) as [_ H1].
    destruct (validate_mac_true s2 w2 w2 R2) as [_ H2].
    destruct (create_magic_packet_accepted s1 w1 H1) as (m1 & E1 & _ & ->).
    destruct (create_magic_packet_accepted s2 w2 H2) as (m2 & E2 & _ & ->).
    rewrite <- Hc in E2. cbn [fst]. congruence.
  - now rewrite (create_magic_packet_rejected s1 w1 w1 R1),
                (create_magic_packet_rejected s2 w2 w2 R2).
Qed.

Lemma canonical_form_decides_witness :
  value_of (validate_mac (lit "AA BB CC DD EE 01")) initial_world
  = value_of (validate_mac (lit "a:a:b:b:c:c:d:d:e:e:0:1")) initial_world
  /\ value_of (create_magic_packet (lit "AA BB CC DD EE 01")) initial_world
     = value_of (create_magic_packet (lit "a:a:b:b:c:c:d:d:e:e:0:1")) initial_world.
Proof.
  apply canonical_form_decides.
  - repeat split. now vm_compute.
  - repeat split. now vm_compute.
  - reflexivity.
Defined.

(* ================================================================== *)
(** * Part 14: more on validate_ip                                      *)
(* ================================================================== *)

(** ** Texts over an alphabet *)

Lemma outside_alphabet (ok : ascii -> bool) (c : ascii) (s : str) :
  forallb ok s = true -> ok c = false -> char_in c s = false.
Proof.
  intros Hs Hc. unfold char_in.
  destruct (existsb (Ascii.eqb c) s) eqn:E; [|reflexivity].
  apply existsb_exists in E as (x & Hx & Hcx). apply Ascii.eqb_eq in Hcx. subst x.
  rewrite forallb_forall in Hs. rewrite (Hs c Hx) in Hc. discriminate.
Qed.

(** A pattern with a character outside the alphabet of a text is not in
    the text. *)
Lemma pattern_outside_alphabet (ok : ascii -> bool) (p s : str) :
  existsb (fun x => negb (ok x)) p = true -> forallb ok s = true ->
  contains p s = false.
Proof.
  intros Hp Hs. destruct (contains p s) eqn:E; [exfalso | reflexivity].
  apply existsb_exists in Hp as (x & Hx & Hout).
  pose proof (contains_char p s x E Hx) as Hin.
  rewrite forallb_forall in Hs. rewrite (Hs x Hin) in Hout. discriminate.
Qed.

Lemma lstrip_no_space (s : str) :
  forallb (fun c => negb (isspace c)) s = true -> lstrip s = s.
Proof.
  destruct s as [|c s]; [reflexivity|]. simpl.
  intros H. apply andb_true_iff in H as [Hc _].
  apply negb_true_iff in Hc. now rewrite Hc.
Qed.

Lemma strip_no_space (s : str) :
  forallb (fun c => negb (isspace c)) s = true -> strip s = s.
Proof.
  intros H. unfold strip, rstrip. rewrite (lstrip_no_space s H).
  rewrite lstrip_no_space by now rewrite forallb_rev.
  apply rev_involutive.
Qed.

(** ** Splitting at dots *)

Lemma split_no_sep (sep : ascii) (a : str) :
  char_in sep a = false -> split sep a = [a].
Proof.
  induction a as [|c a IH]; [reflexivity|]. unfold char_in. simpl.
  intros H. apply orb_false_iff in H as [Hc Ha].
  rewrite Ascii.eqb_sym, Hc. now rewrite (IH Ha).
Qed.

Lemma split_at_sep (sep : ascii) (a r : str) :
  char_in sep a = false -> split sep (a ++ sep :: r) = a :: split sep r.
Proof.
  induction a as [|c a IH]; unfold char_in; simpl.
  - intros _. now rewrite Ascii.eqb_refl.
  - intros H. apply orb_false_iff in H as [Hc Ha].
    rewrite Ascii.eqb_sym, Hc. now rewrite (IH Ha).
Qed.


(** ** The text [int] reads *)







(** ** Addresses in the usual writing *)

Lemma plain_octets : forallb plain_octet (seq 0 256) = true.
Proof. vm_compute. reflexivity. Qed.

Lemma plain_octet_upto (n : nat) : n <= 255 -> plain_octet n = true.
Proof.
  intros H. pose proof plain_octets as Hall. rewrite forallb_forall in Hall.
  apply Hall, in_seq. lia.
Qed.

(** What is used of a number up to 255 written in decimal. *)
Lemma plain_octet_facts (n : nat) :
  n <= 255 ->
  is_empty (str_of_nat n) = false
  /\ length (str_of_nat n) <= 3
  /\ forallb is_digit (str_of_nat n) = true
  /\ octet (str_of_nat n) (Z.of_nat n).
Proof.
  intros H. pose proof (plain_octet_upto n H) as Hp. unfold plain_octet in Hp.
  repeat (apply andb_true_iff in Hp as [Hp ?]).
  destruct (int_parse (str_of_nat n)) as [m|] eqn:Hint; [|discriminate].
  repeat split.
  - now apply negb_true_iff.
  - now apply Nat.leb_le.
  - assumption.
  - now apply negb_true_iff.
  - match goal with E : (m =? _)%Z = true |- _ => apply Z.eqb_eq in E; now subst end.
  - lia.
  - lia.
Qed.

Lemma digits_dotted (p : str) :
  forallb is_digit p = true -> forallb dotted_char p = true.
Proof.
  intros H. rewrite forallb_forall in *. intros c Hc.
  unfold dotted_char. now rewrite (H c Hc).
Qed.

Lemma digits_no_dot (p : str) : forallb is_digit p = true -> char_in "." p = false.
Proof. intros H. now apply (outside_alphabet is_digit). Qed.

Lemma dotted_char_not_space (c : ascii) :
  dotted_char c = true -> negb (isspace c) = true.
Proof. each_char c. Qed.

Lemma ip_patterns_outside_dotted :
  forallb (fun p => existsb (fun x => negb (dotted_char x)) p) ip_dangerous_patterns
  = true.
Proof. reflexivity. Qed.

(** Decimal writing is one to one on the numbers that matter. *)
Lemma str_of_nat_inj (n m : nat) :
  n <= 255 -> m <= 255 -> str_of_nat n = str_of_nat m -> n = m.
Proof.
  intros Hn Hm E.
  destruct (plain_octet_facts n Hn) as (_ & _ & _ & _ & In & _).
  destruct (plain_octet_facts m Hm) as (_ & _ & _ & _ & Im & _).
  rewrite E in In. rewrite In in Im. injection Im. lia.
Qed.

Section DottedQuad.

Variables a b c d : nat.
Hypothesis Ha : a <= 255.
Hypothesis Hb : b <= 255.
Hypothesis Hc : c <= 255.
Hypothesis Hd : d <= 255.

Lemma dotted_split :
  split "." (dotted a b c d) = [str_of_nat a; str_of_nat b; str_of_nat c; str_of_nat d].
Proof.
  destruct (plain_octet_facts a Ha) as (_ & _ & Da & _).
  destruct (plain_octet_facts b Hb) as (_ & _ & Db & _).
  destruct (plain_octet_facts c Hc) as (_ & _ & Dc & _).
  destruct (plain_octet_facts d Hd) as (_ & _ & Dd & _).
  unfold dotted.
  rewrite !split_at_sep by now apply digits_no_dot.
  now rewrite split_no_sep by now apply digits_no_dot.
Qed.

Lemma dotted_chars : forallb dotted_char (dotted a b c d) = true.
Proof.
  destruct (plain_octet_facts a Ha) as (_ & _ & Da & _).
  destruct (plain_octet_facts b Hb) as (_ & _ & Db & _).
  destruct (plain_octet_facts c Hc) as (_ & _ & Dc & _).
  destruct (plain_octet_facts d Hd) as (_ & _ & Dd & _).
  unfold dotted.
  repeat (rewrite forallb_app || cbn [forallb]).
  rewrite !digits_dotted by assumption. reflexivity.
Qed.

(** The address is one of the literals only when its numbers are. *)
Lemma dotted_eq (a' b' c' d' : nat) :
  a' <= 255 -> b' <= 255 -> c' <= 255 -> d' <= 255 ->
  str_eqb (dotted a b c d) (dotted a' b' c' d')
  = ((a =? a') && (b =? b') && (c =? c') && (d =? d'))%nat.
Proof.
  intros Ha' Hb' Hc' Hd'.
  destruct (str_eqb (dotted a b c d) (dotted a' b' c' d')) eqn:E.
  - apply str_eqb_eq in E. apply (f_equal (split ".")) in E.
    rewrite dotted_split in E.
    assert (E' : split "." (dotted a' b' c' d')
                 = [str_of_nat a'; str_of_nat b'; str_of_nat c'; str_of_nat d']).
    { destruct (plain_octet_facts a' Ha') as (_ & _ & Da & _).
      destruct (plain_octet_facts b' Hb') as (_ & _ & Db & _).
      destruct (plain_octet_facts c' Hc') as (_ & _ & Dc & _).
      destruct (plain_octet_facts d' Hd') as (_ & _ & Dd & _).
      unfold dotted.
      rewrite !split_at_sep by now apply digits_no_dot.
      now rewrite split_no_sep by now apply digits_no_dot. }
    rewrite E' in E. injection E as E1 E2 E3 E4.
    apply str_of_nat_inj in E1, E2, E3, E4; try assumption. subst.
    now rewrite !Nat.eqb_refl.
  - symmetry. apply not_true_is_false. intros H.
    repeat (apply andb_true_iff in H as [H ?]).
    repeat match goal with E : (_ =? _)%nat = true |- _ => apply Nat.eqb_eq in E end.
    subst. rewrite (proj2 (str_eqb_eq _ _) eq_refl) in E. discriminate.
Qed.

Lemma dotted_loopback :
  startswith (dotted a b c d) (lit "127.") = (a =? 127)%nat.
Proof.
  destruct (a =? 127)%nat eqn:E.
  - apply Nat.eqb_eq in E. subst a. unfold dotted.
    apply (startswith_app (lit "127.")).
  - destruct (startswith (dotted a b c d) (lit "127.")) eqn:Hs; [exfalso | reflexivity].
    apply startswith_prefix in Hs as [rest Hs].
    apply (f_equal (split ".")) in Hs. rewrite dotted_split in Hs.
    change (lit "127." ++ rest) with (lit "127" ++ "." :: rest) in Hs.
    rewrite split_at_sep in Hs by reflexivity.
    injection Hs as Hs _.
    apply (str_of_nat_inj a 127) in Hs; [|assumption|lia]. subst a. discriminate.
Qed.

End DottedQuad.

(** X4.  On an address written the usual way, four numbers up to 255 in
    decimal joined by dots, [validate_ip] answers [True] unless the first
    number is 127 or the address is 0.0.0.0 or 255.255.255.255: every
    other such address is accepted. *)
Theorem validate_ip_dotted_quad (a b c d : nat) (w : World) :
  a <= 255 -> b <= 255 -> c <= 255 -> d <= 255 ->
  value_of (validate_ip (dotted a b c d)) w
  = Return (negb ((a =? 127)
                  || ((a =? 0) && (b =? 0) && (c =? 0) && (d =? 0))
                  || ((a =? 255) && (b =? 255) && (c =? 255) && (d =? 255)))%nat).
Proof.
  intros Ha Hb Hc Hd.
  destruct (plain_octet_facts a Ha) as (Ea & La & Da & Oa).
  destruct (plain_octet_facts b Hb) as (_ & Lb & Db & Ob).
  destruct (plain_octet_facts c Hc) as (_ & Lc & Dc & Oc).
  destruct (plain_octet_facts d Hd) as (_ & Ld & Dd & Od).
  pose proof (dotted_chars a b c d Ha Hb Hc Hd) as Hchars.
  set (s := dotted a b c d) in *.
  assert (H1 : is_empty s = false).
  { subst s. unfold dotted. now destruct (str_of_nat a). }
  assert (H2 : str_eqb s (strip s) = true).
  { apply str_eqb_eq. symmetry. apply strip_no_space.
    rewrite forallb_forall in *. intros x Hx.
    apply dotted_char_not_space, Hchars, Hx. }
  assert (H3 : char_in "009" s = false) by now apply (outside_alphabet dotted_char).
  assert (H4 : char_in "010" s = false) by now apply (outside_alphabet dotted_char).
  assert (H5 : (MAX_IP_LENGTH <? len s)%Z = false).
  { apply Z.ltb_ge. subst s. unfold len, dotted, MAX_IP_LENGTH.
    repeat (rewrite length_app || cbn [length]). lia. }
  assert (H6 : find (fun pattern => contains pattern s) ip_dangerous_patterns = None).
  { apply find_none_forall. intros p Hp.
    pose proof ip_patterns_outside_dotted as Hall. rewrite forallb_forall in Hall.
    now apply (pattern_outside_alphabet dotted_char); [apply Hall|]. }
  assert (H7 : split "." s = [str_of_nat a; str_of_nat b; str_of_nat c; str_of_nat d])
    by now apply dotted_split.
  assert (H8 : check_parts (split "." s) w = (Return true, w)).
  { apply check_parts_true. split; [reflexivity|]. rewrite H7.
    repeat constructor; eexists; eassumption. }
  assert (H9 : str_in s reserved_ips
               = (((a =? 0) && (b =? 0) && (c =? 0) && (d =? 0))
                  || ((a =? 127) && (b =? 0) && (c =? 0) && (d =? 1))
                  || ((a =? 255) && (b =? 255) && (c =? 255) && (d =? 255)))%nat).
  { unfold str_in, reserved_ips. cbn [existsb].
    change (lit "0.0.0.0") with (dotted 0 0 0 0).
    change (lit "127.0.0.1") with (dotted 127 0 0 1).
    change (lit "255.255.255.255") with (dotted 255 255 255 255).
    subst s. rewrite !dotted_eq by lia. now rewrite orb_false_r, orb_assoc. }
  assert (H10 : startswith s (lit "127.") = (a =? 127)%nat) by now apply dotted_loopback.
  unfold value_of, validate_ip; run_py.
  rewrite H1, H2, H3, H4, H5, H6. cbn [negb orb].
  replace (len (split "." s) =? 4)%Z with true by now rewrite H7.
  cbn [negb]. rewrite H8, H9, H10. cbn [negb].
  destruct (a =? 127)%nat, (a =? 0)%nat, (a =? 255)%nat,
    (b =? 0)%nat, (b =? 255)%nat, (c =? 0)%nat, (c =? 255)%nat,
    (d =? 0)%nat, (d =? 1)%nat, (d =? 255)%nat; reflexivity.
Qed.

Lemma validate_ip_dotted_quad_witness :
  value_of (validate_ip (dotted 192 168 1 100)) initial_world = Return true.
Proof. apply (validate_ip_dotted_quad 192 168 1 100 initial_world); lia. Defined.

(* ================================================================== *)
(** * Part 15: more on send_magic_packet                                *)
(* ================================================================== *)

(** X5.  A call hands at most one datagram to the system, and its
    payload is the packet [create_magic_packet] builds for the address:
    the events a call adds are none, or a socket opened, that one
    datagram to the configured address, and the socket closed.  When
    [validate_mac] refuses the address, or no socket can be had, nothing
    is sent. *)
Theorem send_at_most_one_datagram (h : Host) (s : str) (tip : option str)
    (w : World) :
  exists events,
    new_events w (world_after (send_magic_packet h s tip) w) events
    /\ (events = []
        \/ exists packet,
            value_of (create_magic_packet s) w = Return (Some packet)
            /\ events = [SocketClosed;
                         SentTo packet (configured_broadcast_ip h, 9%Z);
                         SocketOpened])
    /\ (value_of (validate_mac s) w = Return false \/ socket_available h = false ->
        events = []).
Proof.
  unfold new_events, world_after, value_of.
  destruct (create_magic_packet_outcome s w)
    as [(packet & Hc & Hlen & Hv) | (w' & Hc & Hv & Hw')].
  - rewrite (send_magic_packet_built h s tip w packet Hc Hlen), Hc, Hv. cbn [fst].
    destruct (socket_available h); [cbv zeta|].
    + exists [SocketClosed; SentTo packet (configured_broadcast_ip h, 9%Z); SocketOpened].
      split; [|split].
      * destruct (sendto_outcome h packet (configured_broadcast_ip h, 9%Z)) as [n| |];
          [destruct (n =? len packet)%Z| |]; reflexivity.
      * right. exists packet. auto.
      * intros [H | H]; discriminate.
    + exists []. auto.
  - rewrite (send_magic_packet_rejected h s tip w w' Hc). cbn [snd].
    exists []. split; [|auto]. now destruct Hw' as [-> | ->].
Qed.

Lemma send_at_most_one_datagram_witness :
  let h := mkHost None true (fun data _ => Transmitted (len data)) (lit "now") in
  value_of (validate_mac (lit "<script>")) initial_world = Return false
  /\ network (world_after (send_magic_packet h (lit "<script>") None) initial_world)
     = network initial_world.
Proof.
  intros h. split; [reflexivity|].
  destruct (send_at_most_one_datagram h (lit "<script>") None initial_world)
    as (events & Hnew & _ & Hnone).
  rewrite Hnew, Hnone; [reflexivity | left; reflexivity].
Defined.

(* ================================================================== *)
(** * Part 16: the forwarder                                            *)
(* ================================================================== *)

Lemma bytes_eqb_eq (a b : bytes) : bytes_eqb a b = true <-> a = b.
Proof.
  revert b; induction a as [|x a IH]; intros [|y b]; simpl;
    try (split; [discriminate | congruence]); try tauto.
  rewrite andb_true_iff, IH. split.
  - intros [Hxy ->]. apply byte_dec_bl in Hxy. now subst.
  - intros [= -> ->]. split; [now apply byte_dec_lb | reflexivity].
Qed.

Lemma bytes_eqb_refl (a : bytes) : bytes_eqb a a = true.
Proof. now apply bytes_eqb_eq. Qed.

(** ** Packets cut into blocks *)

(** A list all of whose blocks of six are [m] is [m] repeated. *)
Lemma blocks_repeat {A} (m : list A) (n : nat) (l : list A) :
  length l = n * 6 ->
  (forall i, i < n -> firstn 6 (skipn (i * 6) l) = m) ->
  l = concat (repeat m n).
Proof.
  revert l; induction n as [|n IH]; intros l Hlen Hblocks.
  - destruct l; [reflexivity | discriminate].
  - cbn [repeat concat].
    rewrite <- (firstn_skipn 6 l) at 1. f_equal.
    + exact (Hblocks 0 (Nat.lt_0_succ n)).
    + apply IH.
      * rewrite length_skipn. lia.
      * intros i Hi. rewrite skipn_skipn.
        replace (i * 6 + 6) with (S i * 6) by lia. apply Hblocks. lia.
Qed.

Lemma block_of_repeat {A} (m : list A) (n i : nat) :
  length m = 6 -> i < n -> firstn 6 (skipn (i * 6) (concat (repeat m n))) = m.
Proof.
  intros Hm.
  destruct m as [|a [|b [|c [|d [|e [|f [|]]]]]]]; try discriminate Hm. clear Hm.
  revert i; induction n as [|n IH]; intros i Hi; [lia|].
  cbn [repeat concat]. destruct i as [|i]; [reflexivity|].
  change (S i * 6) with (6 + i * 6). cbn [Nat.add app skipn]. apply IH. lia.
Qed.

(** A well-formed packet is accepted, and its address is read back. *)
Lemma validate_magic_packet_built (mac : bytes) :
  length mac = 6 ->
  validate_magic_packet (magic_packet_of mac)
  = (true, join [":"] (map format_02x mac)).
Proof.
  intros Hm. unfold validate_magic_packet, magic_packet_of.
  assert (Hlen : length (repeat xff 6 ++ concat (repeat mac 16)) = 102).
  { rewrite length_app, repeat_length, length_concat_repeat, Hm. reflexivity. }
  rewrite Hlen. cbn [Nat.eqb negb].
  assert (Hblock : forall i, i < 16 ->
            slice (6 + i * 6) (6 + i * 6 + 6)
                  (repeat xff 6 ++ concat (repeat mac 16)) = mac).
  { intros i Hi. unfold slice.
    replace (6 + i * 6 + 6 - (6 + i * 6)) with 6 by lia.
    replace (6 + i * 6) with (length (repeat xff 6) + i * 6)
      by now rewrite repeat_length.
    rewrite skipn_app, skipn_all2 by lia.
    replace (length (repeat xff 6) + i * 6 - length (repeat xff 6)) with (i * 6) by lia.
    cbn [app]. now apply block_of_repeat. }
  assert (Hhead : slice 0 6 (repeat xff 6 ++ concat (repeat mac 16)) = repeat xff 6)
    by reflexivity.
  rewrite Hhead, bytes_eqb_refl. cbn [negb].
  assert (Hmac : slice 6 12 (repeat xff 6 ++ concat (repeat mac 16)) = mac)
    by (apply (Hblock 0); lia).
  rewrite Hmac.
  replace (find _ (seq 0 16)) with (@None nat); [reflexivity|].
  symmetry. apply find_none_forall. intros i Hi. apply in_seq in Hi.
  cbv zeta. rewrite Hblock by lia. now rewrite bytes_eqb_refl.
Qed.

(** X6.  [validate_magic_packet] accepts a datagram exactly when it is six
    bytes 0xFF followed by sixteen copies of some six bytes, and then
    returns those six bytes as lower-case hex pairs joined by colons. *)
Theorem validate_magic_packet_spec (data : bytes) :
  (fst (validate_magic_packet data) = true <->
   exists mac, length mac = 6 /\ data = magic_packet_of mac)
  /\ (forall mac, length mac = 6 ->
        validate_magic_packet (magic_packet_of mac)
        = (true, join [":"] (map format_02x mac))).
Proof.
  split; [|exact validate_magic_packet_built]. split.
  - unfold validate_magic_packet.
    destruct (length data =? 102)%nat eqn:Hlen; cbn [negb]; [|discriminate].
    destruct (bytes_eqb (slice 0 6 data) (repeat xff 6)) eqn:Hhead; cbn [negb];
      [|discriminate].
    destruct (find _ (seq 0 16)) as [i|] eqn:Hfind; [discriminate|]. intros _.
    apply Nat.eqb_eq in Hlen. apply bytes_eqb_eq in Hhead.
    exists (slice 6 12 data). split.
    + unfold slice. rewrite length_firstn, length_skipn. lia.
    + unfold magic_packet_of. rewrite <- (firstn_skipn 6 data) at 1. f_equal.
      * exact Hhead.
      * apply blocks_repeat; [rewrite length_skipn; lia|].
        intros i Hi. rewrite skipn_skipn.
        pose proof (proj1 (find_none_forall _ _) Hfind i) as Hi'.
        cbv zeta in Hi'. rewrite in_seq in Hi'.
        specialize (Hi' ltac:(lia)).
        apply negb_false_iff, bytes_eqb_eq in Hi'.
        unfold slice in Hi'.
        replace (6 + i * 6 + 6 - (6 + i * 6)) with 6 in Hi' by lia.
        replace (i * 6 + 6) with (6 + i * 6) by lia. exact Hi'.
  - intros (mac & Hm & ->). now rewrite (validate_magic_packet_built mac Hm).
Qed.

Lemma validate_magic_packet_spec_witness :
  validate_magic_packet (magic_packet_of [xaa; xbb; xcc; xdd; xee; x01])
  = (true, lit "aa:bb:cc:dd:ee:01").
Proof.
  exact (proj2 (validate_magic_packet_spec []) [xaa; xbb; xcc; xdd; xee; x01] eq_refl).
Defined.

(** ** From the server to the forwarder *)

Lemma format_nibbles_all :
  forallb (fun hi =>
             forallb (fun lo => str_eqb (format_02x (byte_of_nibbles hi lo))
                                        [hex_char hi; hex_char lo])
                     (seq 0 16))
          (seq 0 16) = true.
Proof. vm_compute. reflexivity. Qed.

Lemma format_nibbles (hi lo : nat) :
  hi < 16 -> lo < 16 ->
  format_02x (byte_of_nibbles hi lo) = [hex_char hi; hex_char lo].
Proof.
  intros Hhi Hlo. pose proof format_nibbles_all as H.
  rewrite forallb_forall in H. specialize (H hi ltac:(apply in_seq; lia)).
  rewrite forallb_forall in H. specialize (H lo ltac:(apply in_seq; lia)).
  now apply str_eqb_eq.
Qed.

Lemma hex_digit_nibble (c : ascii) :
  char_in c hex_digits = true ->
  c_isspace c = false
  /\ exists v, hex_value c = Some v /\ v < 16 /\ hex_char v = lower_char c.
Proof.
  destruct c as [[] [] [] [] [] [] [] []]; try discriminate; intros _;
    (split; [reflexivity | eexists; split; [reflexivity | split; [cbv; lia | reflexivity]]]).
Qed.

(** Decoding upper-case hex digits and writing the bytes in lower-case hex
    gives the digits back, in lower case. *)
Lemma fromhex_format (n : nat) (s : str) :
  length s = 2 * n ->
  forallb (fun c => char_in c hex_digits) s = true ->
  exists bs, fromhex_parse s = Some bs
             /\ length bs = n
             /\ concat (map format_02x bs) = lower s.
Proof.
  revert s; induction n as [|n IH]; intros s Hlen Hhex.
  - destruct s; [now exists [] | discriminate].
  - destruct s as [|c [|d s]]; try (simpl in Hlen; lia).
    cbn [forallb] in Hhex. apply andb_true_iff in Hhex as [Hc Hhex].
    apply andb_true_iff in Hhex as [Hd Hhex].
    destruct (hex_digit_nibble c Hc) as (Hsp & hi & Hhi & Bhi & Lhi).
    destruct (hex_digit_nibble d Hd) as (_ & lo & Hlo & Blo & Llo).
    destruct (IH s) as (bs & E & Hbs & Hfmt); [simpl in Hlen; lia | exact Hhex |].
    exists (byte_of_nibbles hi lo :: bs).
    cbn [fromhex_parse]. rewrite Hsp, Hhi, Hlo, E.
    split; [reflexivity|]. split; [simpl; now rewrite Hbs|].
    cbn [map concat lower]. rewrite (format_nibbles hi lo Bhi Blo), Hfmt, Lhi, Llo.
    reflexivity.
Qed.

Lemma join_pairs (bs : bytes) :
  length bs = 6 ->
  join [":"] (map format_02x bs) = spell [":"] (concat (map format_02x bs)).
Proof.
  intros H.
  destruct bs as [|b1 [|b2 [|b3 [|b4 [|b5 [|b6 [|]]]]]]]; try discriminate H.
  reflexivity.
Qed.

(** X7.  The forwarder accepts every packet the server builds, and the
    address it reads from the packet is the canonical form of the
    server's input, in lower case with colons. *)
Theorem forwarder_reads_server_packets (s : str) (w : World) (packet : bytes) :
  value_of (create_magic_packet s) w = Return (Some packet) ->
  validate_magic_packet packet = (true, spell [":"] (lower (canonical_form s))).
Proof.
  unfold value_of. intros H.
  destruct (create_magic_packet_outcome s w)
    as [(packet' & Hc & _ & Hv) | (w' & Hc & _)];
    rewrite Hc in H; [|discriminate].
  injection H as <-.
  destruct (validate_mac_true s w w Hv) as [_ Hacc].
  destruct (fromhex_format 6 (canonical_form s)) as (bs & Hbs & Hlen & Hfmt).
  { pose proof (acc_twelve s Hacc) as Hl. unfold len in Hl. lia. }
  { apply (acc_hex s Hacc). }
  destruct (create_magic_packet_accepted s w Hacc) as (mb & Hmb & _ & Hrun).
  rewrite Hrun in Hc. injection Hc as Hp. subst packet'.
  assert (mb = bs) as -> by congruence.
  change (validate_magic_packet (magic_packet_of bs)
          = (true, spell [":"] (lower (canonical_form s)))).
  rewrite (validate_magic_packet_built bs Hlen), (join_pairs bs Hlen), Hfmt.
  reflexivity.
Qed.

Lemma forwarder_reads_server_packets_witness :
  exists packet,
    value_of (create_magic_packet (lit "AA-BB-CC-DD-EE-01")) initial_world
    = Return (Some packet)
    /\ validate_magic_packet packet = (true, lit "aa:bb:cc:dd:ee:01").
Proof.
  eexists. split; [reflexivity|].
  apply (forwarder_reads_server_packets (lit "AA-BB-CC-DD-EE-01") initial_world).
  reflexivity.
Defined.

(** ** Forwarding *)

Lemma datagrams_app (e2 e1 : list net_event) :
  datagrams (e2 ++ e1) = datagrams e1 ++ datagrams e2.
Proof. unfold datagrams. now rewrite rev_app_distr, flat_map_app. Qed.

(** One send: the verdict, the counters untouched, and the datagram handed
    over whenever a socket could be had. *)
Lemma send_wakeonlan_style_run (h : Host) (pkt : bytes) (dest : address)
    (st : Forwarder) :
  exists events,
    send_wakeonlan_style h pkt (fst dest) (snd dest) st
    = (fully_sent h pkt dest,
       mkForwarder (packets_received st) (packets_forwarded st)
                   (events ++ forwarder_network st))
    /\ datagrams events = if socket_available h then [(pkt, dest)] else [].
Proof.
  destruct dest as [target port], st as [r f n].
  unfold send_wakeonlan_style, fully_sent. cbn [fst snd].
  destruct (socket_available h); cbn [andb].
  - destruct (sendto_outcome h pkt (target, port)) as [k| |].
    + exists [SocketClosed; SentTo pkt (target, port); SocketOpened]. now split.
    + exists [SentTo pkt (target, port); SocketOpened]. now split.
    + exists [SentTo pkt (target, port); SocketOpened]. now split.
  - exists []. now split.
Qed.

Lemma send_all_run (h : Host) (pkt : bytes) (dests : list address)
    (total : Z) (st : Forwarder) :
  exists events,
    fold_left (fun acc dest => send_and_count h pkt (fst dest) (snd dest) acc)
              dests (total, st)
    = ((total + Z.of_nat (length (filter (fully_sent h pkt) dests)))%Z,
       mkForwarder (packets_received st) (packets_forwarded st)
                   (events ++ forwarder_network st))
    /\ datagrams events
       = if socket_available h then map (fun dest => (pkt, dest)) dests else [].
Proof.
  revert total st. induction dests as [|dest dests IH]; intros total st.
  - exists []. destruct st, (socket_available h); cbn; split; try reflexivity;
      f_equal; lia.
  - cbn [fold_left]. unfold send_and_count at 2.
    destruct (send_wakeonlan_style_run h pkt dest st) as (e1 & -> & D1).
    match goal with
    | |- context [fold_left _ dests (?t, ?s)] =>
        destruct (IH t s) as (e2 & -> & D2)
    end.
    exists (e2 ++ e1). cbn [packets_received packets_forwarded forwarder_network].
    split.
    + rewrite app_assoc. f_equal. cbn [filter].
      destruct (fully_sent h pkt dest); cbn [length]; lia.
    + rewrite datagrams_app, D1, D2. now destruct (socket_available h).
Qed.

(** The run of [forward_wol_packet]. *)
Lemma forward_wol_packet_run (h : Host) (pkt : bytes) (st : Forwarder) :
  exists events,
    forward_wol_packet h pkt st
    = (Z.of_nat (length (filter (fully_sent h pkt) forward_destinations)),
       mkForwarder (packets_received st)
                   (packets_forwarded st
                    + Z.of_nat (length (filter (fully_sent h pkt) forward_destinations)))
                   (events ++ forwarder_network st))
    /\ datagrams events
       = (if socket_available h
          then map (fun dest => (pkt, dest)) forward_destinations else []).
Proof.
  destruct (send_all_run h pkt forward_destinations 0 st) as (events & Hrun & Hd).
  exists events. split; [|exact Hd].
  unfold forward_wol_packet.
  change (fold_left _ _ _)
    with (fold_left (fun acc dest => send_and_count h pkt (fst dest) (snd dest) acc)
                    forward_destinations (0%Z, st)).
  rewrite Hrun. reflexivity.
Qed.

(** X8.  [forward_wol_packet] hands the datagram to the system six times,
    in a fixed order: the global broadcast, the local broadcast and the
    device address on port 9, then the same three on port 7.  It returns
    the number of sends the system took in full, between 0 and 6, and
    adds that number to [packets_forwarded]. *)
Theorem forward_wol_packet_counts (h : Host) (pkt : bytes) (st : Forwarder) :
  let total := Z.of_nat (length (filter (fully_sent h pkt) forward_destinations)) in
  exists events,
    forward_wol_packet h pkt st
    = (total,
       mkForwarder (packets_received st) (packets_forwarded st + total)
                   (events ++ forwarder_network st))
    /\ datagrams events
       = (if socket_available h
          then map (fun dest => (pkt, dest)) forward_destinations else [])
    /\ (0 <= total <= 6)%Z.
Proof.
  intros total.
  destruct (forward_wol_packet_run h pkt st) as (events & Hrun & Hd).
  exists events. split; [exact Hrun|]. split; [exact Hd|].
  subst total. pose proof (filter_length_le (fully_sent h pkt) forward_destinations) as H.
  cbn [forward_destinations length] in H. lia.
Qed.

Lemma forward_wol_packet_counts_witness :
  let h := mkHost None true
                  (fun data dest => if (snd dest =? 9)%Z then Transmitted (len data)
                                    else SendFailed)
                  (lit "now") in
  fst (forward_wol_packet h (magic_packet_of [xaa; xbb; xcc; xdd; xee; x01])
                          (mkForwarder 0 0 [])) = 3%Z.
Proof.
  intros h.
  destruct (forward_wol_packet_counts h (magic_packet_of [xaa; xbb; xcc; xdd; xee; x01])
              (mkForwarder 0 0 [])) as (events & -> & _).
  reflexivity.
Defined.

(** X9.  [handle_client] counts every datagram it is given and forwards
    only valid magic packets, unchanged, to the six fixed destinations:
    for a datagram [validate_magic_packet] refuses, nothing is sent and
    [packets_forwarded] stays as it is. *)
Theorem handle_client_forwards_valid_packets_only (h : Host) (data : bytes)
    (st : Forwarder) :
  let st' := handle_client h data st in
  packets_received st' = (packets_received st + 1)%Z
  /\ exists events,
      forwarder_network st' = events ++ forwarder_network st
      /\ (forall payload dest,
             In (payload, dest) (datagrams events) ->
             payload = data
             /\ fst (validate_magic_packet data) = true
             /\ In dest forward_destinations)
      /\ (fst (validate_magic_packet data) = false ->
          events = [] /\ packets_forwarded st' = packets_forwarded st).
Proof.
  intros st'. subst st'. unfold handle_client.
  destruct (validate_magic_packet data) as [[|] result]; cbn [negb fst].
  - match goal with
    | |- context [forward_wol_packet h data ?s] =>
        destruct (forward_wol_packet_run h data s) as (events & -> & Hd)
    end.
    cbn [snd packets_received forwarder_network]. split; [reflexivity|].
    exists events. split; [reflexivity|]. split; [|discriminate].
    intros payload dest Hin. rewrite Hd in Hin.
    destruct (socket_available h); [|contradiction].
    apply in_map_iff in Hin as (d & [= <- <-] & Hdest). auto.
  - cbn [packets_received forwarder_network]. split; [reflexivity|].
    exists []. split; [reflexivity|]. split; [contradiction | auto].
Qed.

Lemma handle_client_forwards_valid_packets_only_witness :
  let h := mkHost None true (fun data _ => Transmitted (len data)) (lit "now") in
  fst (validate_magic_packet [x00; x01]) = false
  /\ forwarder_network (handle_client h [x00; x01] (mkForwarder 0 0 [])) = []
  /\ packets_received (handle_client h [x00; x01] (mkForwarder 0 0 [])) = 1%Z.
Proof.
  intros h.
  destruct (handle_client_forwards_valid_packets_only h [x00; x01] (mkForwarder 0 0 []))
    as (Hr & events & Hn & _ & Hbad).
  split; [reflexivity|]. split; [|exact Hr].
  rewrite Hn. now destruct (Hbad eq_refl) as [-> _].
Defined.

(* ================================================================== *)
(** * Part 17: the request handler                                      *)
(* ================================================================== *)

(** What [send_magic_packet] does for an address that [validate_mac]
    accepts: success with 102 bytes and one more packet counted, or a
    failure that counts nothing. *)
Lemma send_magic_packet_valid (h : Host) (mac : str) (tip : option str) (w : World) :
  validate_mac mac w = (Return true, w) ->
  exists r w',
    send_magic_packet h mac tip w = (Return r, w')
    /\ server_stats w'
       = (if success r then server_stats (incr_magic_packets_sent w) else server_stats w)
    /\ (success r = true ->
        r = Sent mac tip (configured_broadcast_ip h) 9 102 (utcnow_isoformat h)).
Proof.
  intros Hv.
  destruct (create_magic_packet_outcome mac w)
    as [(packet & Hc & Hlen & _) | (w' & _ & Hv' & _)]; [|congruence].
  rewrite (send_magic_packet_built h mac tip w packet Hc Hlen).
  destruct (socket_available h); [cbv zeta|].
  - destruct (sendto_outcome h packet (configured_broadcast_ip h, 9%Z)) as [n| |].
    + destruct (n =? len packet)%Z eqn:Hn.
      * apply Z.eqb_eq in Hn. subst n. rewrite Hlen.
        do 2 eexists. split; [reflexivity|]. split; [reflexivity | auto].
      * do 2 eexists. split; [reflexivity|]. split; [reflexivity | discriminate].
    + do 2 eexists. split; [reflexivity|]. split; [reflexivity | discriminate].
    + do 2 eexists. split; [reflexivity|]. split; [reflexivity | discriminate].
  - do 2 eexists. split; [reflexivity|]. split; [reflexivity | discriminate].
Qed.

Ltac answered :=
  do 2 eexists; split; [reflexivity|];
  constructor; cbn; lia.

Lemma handle_wake_request_counted (h : Host) (req : Request) (w : World) :
  exists r w', handle_wake_request h req w = (Return r, w') /\ counted w w' r.
Proof.
  unfold handle_wake_request, send_error_response; run_py.
  destruct (negb (startswith _ _)); [answered|].
  destruct (MAX_REQUEST_SIZE <? _)%Z; [answered|].
  destruct (_ <=? 0)%Z; [answered|].
  destruct (body req) as [| | |items]; try answered.
  destruct (negb (truthy _)); [answered|].
  destruct (dict_get items (lit "mac") PyNone) as [mac|t text]; [|answered].
  destruct (validate_mac_outcome mac w) as [[|] [Em | [? Em]]]; try discriminate;
    rewrite Em; cbn [negb]; try answered.
  set (target_ip := dict_get items (lit "ip") PyNone).
  set (device_name := dict_get items (lit "name") (PyStr (lit "Unknown Device"))).
  assert (Hip : exists ok w1,
             (if truthy target_ip then validate_ip_of_value target_ip
              else fun w0 : World => (Return true, w0)) w
             = (Return ok, w1)
             /\ (w1 = w \/ (ok = false /\ w1 = incr_security_violations w))).
  { destruct (truthy target_ip); [|do 2 eexists; split; [reflexivity | auto]].
    destruct target_ip as [t|? ?]; cbn [validate_ip_of_value].
    - destruct (validate_ip_outcome t w) as [b [E | [-> E]]]; eauto 6.
    - do 2 eexists; split; [reflexivity | auto]. }
  destruct Hip as (ok & w1 & -> & Hw1).
  destruct ok; cbn [negb].
  - destruct Hw1 as [-> | [? _]]; [|discriminate].
    destruct (100 <? _)%Z; [answered|].
    destruct (send_magic_packet_valid h mac (as_target_ip target_ip) w Em)
      as (r & w' & -> & Hstats & Hsent).
    destruct r as [m tip b p n ts | e m]; cbn [success] in Hstats.
    + do 2 eexists. split; [reflexivity|]. constructor; rewrite Hstats; cbn; lia.
    + do 2 eexists. split; [reflexivity|]. constructor; rewrite Hstats; cbn; lia.
  - destruct Hw1 as [-> | [_ ->]]; answered.
Qed.

(** Every request gets an answer, is counted once, and moves the other
    counters as its answer tells. *)
Lemma dispatch_counted (a : arrival) (w : World) :
  exists r w',
    dispatch a w = (Return r, w')
    /\ counted (incr_requests_handled w) w' r.
Proof.
  destruct a as [[h method] req]. unfold dispatch, do_GET, do_POST.
  destruct method; run_py.
  - destruct (str_eqb _ _).
    + unfold handle_health_check. do 2 eexists. split; [reflexivity|].
      constructor; cbn; lia.
    + unfold send_error_response; run_py. answered.
  - destruct (str_eqb _ _).
    + apply handle_wake_request_counted.
    + unfold send_error_response; run_py. answered.
Qed.

Lemma count_cons {A} (f : A -> bool) (x : A) (l : list A) :
  count f (x :: l) = ((if f x then 1 else 0) + count f l)%Z.
Proof. unfold count, len. cbn [filter]. destruct (f x); cbn [length]; lia. Qed.

(** The run of the server over a sequence of requests. *)
Lemma serve_run (arrivals : list arrival) (w : World) :
  exists responses w',
    serve arrivals w = (Return responses, w')
    /\ length responses = length arrivals
    /\ requests_handled (server_stats w')
       = (requests_handled (server_stats w) + len arrivals)%Z
    /\ magic_packets_sent (server_stats w')
       = (magic_packets_sent (server_stats w) + count is_wake_response responses)%Z
    /\ validation_errors (server_stats w')
       = (validation_errors (server_stats w) + count is_validation_error responses)%Z
    /\ (security_violations (server_stats w) <= security_violations (server_stats w'))%Z.
Proof.
  revert w. induction arrivals as [|a rest IH]; intros w.
  - exists [], w. cbn. repeat split; lia.
  - cbn [serve]. run_py.
    destruct (dispatch_counted a w) as (r & w1 & -> & [C1 C2 C3 C4]).
    destruct (IH w1) as (rs & w2 & -> & Hlen & H1 & H2 & H3 & H4).
    exists (r :: rs), w2. split; [reflexivity|]. split; [cbn; now rewrite Hlen|].
    rewrite !count_cons, H1, H2, H3, C1, C2, C4.
    cbn in C3 |- *. unfold len in *. cbn [length]. repeat split; lia.
Qed.


(** The run of a wake request, branch by branch: what was answered, and
    what the network saw. *)
Ltac quiet :=
  do 2 eexists; split; [reflexivity|];
  split; [now left | intros Hwake; cbn in Hwake; discriminate Hwake].

Lemma handle_wake_request_run (h : Host) (req : Request) (w : World) :
  exists r w',
    handle_wake_request h req w = (Return r, w')
    /\ (network w' = network w
        \/ is_wake_response r = true
        \/ r = ErrorResponse 500 (lit "Failed to send magic packet") (utcnow_isoformat h))
    /\ (is_wake_response r = true ->
        exists items mac,
          body req = BodyObject items
          /\ dict_get items (lit "mac") PyNone = PyStr mac
          /\ validate_mac mac w = (Return true, w)
          /\ (truthy (dict_get items (lit "ip") PyNone) = false
              \/ exists t, dict_get items (lit "ip") PyNone = PyStr t
                           /\ validate_ip t w = (Return true, w))
          /\ (len (py_str (dict_get items (lit "name") (PyStr (lit "Unknown Device"))))
              <= 100)%Z
          /\ r = WakeResponse (dict_get items (lit "ip") PyNone) mac
                              (dict_get items (lit "name") (PyStr (lit "Unknown Device")))
                              (configured_broadcast_ip h) 102 (utcnow_isoformat h)).
Proof.
  unfold handle_wake_request, send_error_response; run_py.
  destruct (negb (startswith _ _)); [quiet|].
  destruct (MAX_REQUEST_SIZE <? _)%Z; [quiet|].
  destruct (_ <=? 0)%Z; [quiet|].
  destruct (body req) as [| | |items]; try quiet.
  destruct (negb (truthy _)); [quiet|].
  destruct (dict_get items (lit "mac") PyNone) as [mac|t text] eqn:Hmac;
    [|quiet].
  destruct (validate_mac_outcome mac w) as [[|] [Em | [? Em]]]; try discriminate;
    rewrite Em; cbn [negb]; try quiet.
  set (target_ip := dict_get items (lit "ip") PyNone).
  set (device_name := dict_get items (lit "name") (PyStr (lit "Unknown Device"))).
  assert (Hip : exists ok w1,
             (if truthy target_ip then validate_ip_of_value target_ip
              else fun w0 : World => (Return true, w0)) w
             = (Return ok, w1)
             /\ network w1 = network w
             /\ (ok = true ->
                 w1 = w
                 /\ (truthy target_ip = false
                     \/ exists t, target_ip = PyStr t
                                  /\ validate_ip t w = (Return true, w)))).
  { destruct (truthy target_ip);
      [|do 2 eexists; split; [reflexivity | auto]].
    destruct target_ip as [t|? ?]; cbn [validate_ip_of_value].
    - destruct (validate_ip_outcome t w) as [b [E | [-> E]]]; rewrite E.
      + do 2 eexists. split; [reflexivity|]. split; [reflexivity|].
        intros ->. eauto.
      + do 2 eexists. split; [reflexivity|]. split; [reflexivity | discriminate].
    - do 2 eexists. split; [reflexivity|]. split; [reflexivity | discriminate]. }
  destruct Hip as (ok & w1 & -> & Hn1 & Hok).
  destruct ok; cbn [negb]; [|quiet].
  destruct (Hok eq_refl) as [-> Hip].
  destruct (100 <? _)%Z eqn:Hname; [quiet|].
  destruct (send_magic_packet_valid h mac (as_target_ip target_ip) w Em)
    as (r & w' & -> & _ & Hsent).
  destruct r as [m tip b p n ts | e m].
  - specialize (Hsent eq_refl). injection Hsent as -> -> -> -> -> ->.
    do 2 eexists. split; [reflexivity|]. split; [right; now left|].
    intros _. exists items, mac. apply Z.ltb_ge in Hname. auto 10.
  - do 2 eexists. split; [reflexivity|]. split; [right; now right | discriminate].
Qed.

Lemma validate_mac_anywhere (s : str) (w w' : World) :
  validate_mac s w = (Return true, w) -> value_of (validate_mac s) w' = Return true.
Proof.
  intros H. rewrite (validate_mac_value s w' w). unfold value_of. now rewrite H.
Qed.

Lemma validate_ip_anywhere (s : str) (w w' : World) :
  validate_ip s w = (Return true, w) -> value_of (validate_ip s) w' = Return true.
Proof.
  intros H. rewrite (validate_ip_value s w' w). unfold value_of. now rewrite H.
Qed.

(** X11.  A wake request is answered with success only when it went to
    /wake with a JSON object whose "mac" is a string [validate_mac]
    accepts, whose "ip" is absent, false or a string [validate_ip]
    accepts, and whose "name" has at most 100 characters as a string; the
    answer then reports 102 bytes sent to the configured broadcast
    address. *)
Theorem wake_succeeds_only_when_valid (h : Host) (req : Request) (w : World)
    (r : response) :
  value_of (do_POST h req) w = Return r -> is_wake_response r = true ->
  request_path req = lit "/wake"
  /\ exists items mac,
      body req = BodyObject items
      /\ dict_get items (lit "mac") PyNone = PyStr mac
      /\ value_of (validate_mac mac) w = Return true
      /\ (truthy (dict_get items (lit "ip") PyNone) = false
          \/ exists t, dict_get items (lit "ip") PyNone = PyStr t
                       /\ value_of (validate_ip t) w = Return true)
      /\ (len (py_str (dict_get items (lit "name") (PyStr (lit "Unknown Device"))))
          <= 100)%Z
      /\ r = WakeResponse (dict_get items (lit "ip") PyNone) mac
                          (dict_get items (lit "name") (PyStr (lit "Unknown Device")))
                          (configured_broadcast_ip h) 102 (utcnow_isoformat h).
Proof.
  unfold value_of, do_POST; run_py.
  destruct (str_eqb (request_path req) (lit "/wake")) eqn:Hpath.
  - destruct (handle_wake_request_run h req (incr_requests_handled w))
      as (r' & w' & -> & _ & Hwake).
    cbn [fst]. intros [= ->] Hr.
    split; [now apply str_eqb_eq|].
    destruct (Hwake Hr) as (items & mac & Hb & Hm & Hv & Hip & Hname & ->).
    exists items, mac. repeat split; try assumption.
    + eapply validate_mac_anywhere; eassumption.
    + destruct Hip as [Hip | (t & Ht & Hvt)]; [now left | right].
      exists t. split; [exact Ht|]. eapply validate_ip_anywhere; eassumption.
  - unfold send_error_response; run_py. cbn [fst]. intros [= <-]. discriminate.
Qed.

Lemma wake_succeeds_only_when_valid_witness :
  let h := mkHost None true (fun data _ => Transmitted (len data)) (lit "now") in
  let req := mkRequest (lit "/wake") (Some (lit "application/json")) (Some (lit "27"))
                       (BodyObject [(lit "mac", PyStr (lit "AA:BB:CC:DD:EE:01"))]) 0 in
  exists r,
    value_of (do_POST h req) initial_world = Return r
    /\ is_wake_response r = true
    /\ r = WakeResponse PyNone (lit "AA:BB:CC:DD:EE:01") (PyStr (lit "Unknown Device"))
                        (lit "192.168.1.255") 102 (lit "now").
Proof.
  intros h req. eexists. split; [reflexivity|]. split; [reflexivity|].
  destruct (wake_succeeds_only_when_valid h req initial_world _ eq_refl eq_refl)
    as (_ & items & mac & Hb & Hm & _ & _ & _ & Hr).
  injection Hb as <-. cbn in Hm. injection Hm as <-. exact Hr.
Defined.

(** X12.  A request changes what the network sees only when it is
    answered with success or with the failure of the send: every request
    refused with 400, 404 or 413, and every request that could not be
    read, leaves the network alone. *)
Theorem refused_requests_send_nothing (h : Host) (req : Request) (w : World)
    (r : response) :
  value_of (do_POST h req) w = Return r ->
  is_wake_response r = false ->
  r <> ErrorResponse 500 (lit "Failed to send magic packet") (utcnow_isoformat h) ->
  network (world_after (do_POST h req) w) = network w.
Proof.
  unfold value_of, world_after, do_POST; run_py.
  destruct (str_eqb (request_path req) (lit "/wake")).
  - destruct (handle_wake_request_run h req (incr_requests_handled w))
      as (r' & w' & -> & Hnet & _).
    cbn [fst snd]. intros [= ->] Hr Hne.
    destruct Hnet as [Hnet | [Hnet | Hnet]]; [exact Hnet | congruence | contradiction].
  - unfold send_error_response; run_py. reflexivity.
Qed.

Lemma refused_requests_send_nothing_witness :
  let h := mkHost None true (fun data _ => Transmitted (len data)) (lit "now") in
  let req := mkRequest (lit "/wake") (Some (lit "application/json")) (Some (lit "27"))
                       (BodyObject [(lit "mac", PyStr (lit "not-a-mac"))]) 0 in
  value_of (do_POST h req) initial_world
  = Return (ErrorResponse 400 (lit "Invalid MAC address format") (lit "now"))
  /\ network (world_after (do_POST h req) initial_world) = network initial_world.
Proof.
  intros h req. split; [reflexivity|].
  apply (refused_requests_send_nothing h req initial_world
           (ErrorResponse 400 (lit "Invalid MAC address format") (lit "now")));
    [reflexivity | reflexivity | discriminate].
Defined.

(** X13.  A well-formed wake request whose "mac" is longer than 50
    characters or carries a signature of the denylist is answered with
    400 "Invalid MAC address format" and counted twice: once as a security
    violation, once as a validation error.  Nothing is sent. *)
Theorem hostile_mac_counted_twice (h : Host) (req : Request) (w : World)
    (content_type content_length : str) (n : Z)
    (items : list (list ascii * pyvalue)) (mac : str) :
  request_path req = lit "/wake" ->
  content_type_header req = Some content_type ->
  startswith content_type (lit "application/json") = true ->
  content_length_header req = Some content_length ->
  int_of_header content_length = Some n ->
  (0 < n <= MAX_REQUEST_SIZE)%Z ->
  body req = BodyObject items ->
  dict_get items (lit "mac") PyNone = PyStr mac ->
  (MAX_MAC_LENGTH < len mac)%Z \/ mentions_any_case mac_dangerous_patterns mac ->
  let w' := world_after (do_POST h req) w in
  value_of (do_POST h req) w
  = Return (ErrorResponse 400 (lit "Invalid MAC address format") (utcnow_isoformat h))
  /\ security_violations (server_stats w') = (security_violations (server_stats w) + 1)%Z
  /\ validation_errors (server_stats w') = (validation_errors (server_stats w) + 1)%Z
  /\ magic_packets_sent (server_stats w') = magic_packets_sent (server_stats w)
  /\ network w' = network w.
Proof.
  intros Hpath Hct Hjson Hcl Hn Hrange Hbody Hmac Hbad w'. subst w'.
  assert (Hne : is_empty mac = false).
  { destruct Hbad as [H | H].
    - now apply (longer_than_cap_nonempty MAX_MAC_LENGTH).
    - rewrite <- lower_empty.
      apply (mentions_nonempty _ _ mac_patterns_nonempty), mentions_any_case_lower, H. }
  unfold value_of, world_after, do_POST, handle_wake_request, send_error_response;
    run_py.
  rewrite Hpath, (proj2 (str_eqb_eq _ _) eq_refl), Hct, Hjson, Hcl, Hn, Hbody, Hmac.
  cbn [negb truthy].
  replace (MAX_REQUEST_SIZE <? n)%Z with false by (symmetry; apply Z.ltb_ge; lia).
  replace (n <=? 0)%Z with false by (symmetry; apply Z.leb_gt; lia).
  rewrite Hne. cbn [negb].
  rewrite (validate_mac_violation mac _ Hbad). cbn. repeat split; lia.
Qed.

Lemma hostile_mac_counted_twice_witness :
  let h := mkHost None true (fun data _ => Transmitted (len data)) (lit "now") in
  let req := mkRequest (lit "/wake") (Some (lit "application/json; charset=utf-8"))
                       (Some (lit "40"))
                       (BodyObject [(lit "mac", PyStr (lit "AA:BB:CC:DD:EE:FF'; DROP TABLE;"))])
                       0 in
  value_of (do_POST h req) initial_world
  = Return (ErrorResponse 400 (lit "Invalid MAC address format") (lit "now"))
  /\ security_violations (server_stats (world_after (do_POST h req) initial_world)) = 1%Z
  /\ validation_errors (server_stats (world_after (do_POST h req) initial_world)) = 1%Z.
Proof.
  intros h req.
  destruct (hostile_mac_counted_twice h req initial_world
              (lit "application/json; charset=utf-8") (lit "40") 40
              [(lit "mac", PyStr (lit "AA:BB:CC:DD:EE:FF'; DROP TABLE;"))]
              (lit "AA:BB:CC:DD:EE:FF'; DROP TABLE;"))
    as (Hr & Hs & He & _); try reflexivity.
  - split; [reflexivity | discriminate].
  - right. exists (lit "drop table"), (lit "AA:BB:CC:DD:EE:FF'; "), (lit "DROP TABLE"), (lit ";").
    repeat split. simpl. tauto.
  - auto.
Defined.

(** X14.  The health check tells the history of the server: after any
    requests served from the start, the answer to GET /health reports the
    number of requests so far, itself included, the number of successful
    wake answers and the number of validation errors answered. *)
Theorem health_reports_the_history (arrivals : list arrival) (h : Host)
    (req : Request) :
  request_path req = lit "/health" ->
  exists responses violations,
    value_of (serve (arrivals ++ [(h, GET, req)])) initial_world
    = Return (responses
              ++ [HealthResponse (uptime_seconds req)
                                 (len arrivals + 1)
                                 (count is_wake_response responses)
                                 (count is_validation_error responses)
                                 violations (utcnow_isoformat h)])
    /\ length responses = length arrivals.
Proof.
  intros Hpath.
  assert (Happ : forall l w,
             exists rs w1,
               serve l w = (Return rs, w1)
               /\ serve (l ++ [(h, GET, req)]) w
                  = (let '(r, w2) := do_GET h req w1 in
                     match r with
                     | Return x => (Return (rs ++ [x]), w2)
                     | Raise e => (Raise e, w2)
                     end)).
  { induction l as [|a l IH]; intros w.
    - exists [], w. split; [reflexivity|]. cbn [app serve dispatch]. run_py.
      destruct (do_GET h req w) as [[x|e] w2]; reflexivity.
    - cbn [app serve]. run_py.
      destruct (dispatch_counted a w) as (r & w1 & -> & _).
      destruct (IH w1) as (rs & w2 & -> & ->).
      exists (r :: rs), w2. split; [reflexivity|].
      destruct (do_GET h req w2) as [[x|e] w3]; reflexivity. }
  destruct (Happ arrivals initial_world) as (rs & w1 & Hrun & Hlast).
  destruct (serve_run arrivals initial_world)
    as (rs' & w1' & Hrun' & Hlen & H1 & H2 & H3 & _).
  rewrite Hrun in Hrun'. injection Hrun' as <- <-.
  exists rs, (security_violations (server_stats w1)).
  split; [|exact Hlen].
  unfold value_of. rewrite Hlast.
  unfold do_GET, handle_health_check; run_py.
  rewrite Hpath, (proj2 (str_eqb_eq _ _) eq_refl). cbn.
  cbn in H1, H2, H3. now rewrite H1, H2, H3.
Qed.

Lemma health_reports_the_history_witness :
  let h := mkHost None true (fun data _ => Transmitted (len data)) (lit "now") in
  let health := mkRequest (lit "/health") None None BodyUnreadable 7 in
  exists responses violations,
    value_of (serve ([(h, GET, health)] ++ [(h, GET, health)])) initial_world
    = Return (responses
              ++ [HealthResponse 7 (len [(h, GET, health)] + 1)
                                 (count is_wake_response responses)
                                 (count is_validation_error responses)
                                 violations (lit "now")])
    /\ length responses = 1.
Proof.
  intros h health.
  exact (health_reports_the_history [(h, GET, health)] h health eq_refl).
Defined.

(* ================================================================== *)
(** * Part 18: the Flask variant                                        *)
(* ================================================================== *)

(** What [is_valid_mac] tests. *)
Lemma is_valid_mac_canonical (s : str) :
  is_valid_mac s = true -> is_empty s = false /\ is_canonical (canonical_form s).
Proof.
  unfold is_valid_mac, is_canonical, canonical_form.
  rewrite remove_separators_upper_strip.
  destruct (is_empty s); [discriminate|].
  destruct (len _ =? 12)%Z eqn:Hlen; cbn [negb]; [|discriminate].
  intros Hhex. apply Z.eqb_eq in Hlen. unfold len in Hlen.
  repeat split; [lia | exact Hhex].
Qed.

Lemma format_mac_spell (s : str) :
  length (canonical_form s) = 12 ->
  format_mac s = spell [":"] (canonical_form s).
Proof.
  unfold format_mac, canonical_form. rewrite remove_separators_upper_strip.
  intros H.
  destruct (remove_separators (upper s))
    as [|c1 [|c2 [|c3 [|c4 [|c5 [|c6 [|c7 [|c8 [|c9 [|c10 [|c11 [|c12 [|]]]]]]]]]]]]];
    try discriminate H.
  reflexivity.
Qed.

Lemma canonical_is_variant (c : str) : variant_of c (spell [":"] c).
Proof. now exists Colons, c. Qed.

(** X15.  For an address [is_valid_mac] accepts, [format_mac] gives the
    canonical form with a colon after every second digit, 17 characters,
    which [is_valid_mac] accepts again and [format_mac] leaves as it is. *)
Theorem format_mac_normal_form (s : str) :
  is_valid_mac s = true ->
  format_mac s = spell [":"] (canonical_form s)
  /\ length (format_mac s) = 17
  /\ canonical_form (format_mac s) = canonical_form s
  /\ is_valid_mac (format_mac s) = true
  /\ format_mac (format_mac s) = format_mac s.
Proof.
  intros H. destruct (is_valid_mac_canonical s H) as [_ Hc].
  pose proof Hc as [Hlen Hhex].
  pose proof (format_mac_spell s Hlen) as Hf.
  destruct (spelled_variant (canonical_form s) (canonical_form s) Colons Hc eq_refl)
    as (Hne & _ & _ & _ & Hcan).
  cbn [separator] in Hne, Hcan. rewrite <- Hf in Hne, Hcan.
  split; [exact Hf|]. split.
  { rewrite Hf.
    destruct (canonical_form s)
      as [|c1 [|c2 [|c3 [|c4 [|c5 [|c6 [|c7 [|c8 [|c9 [|c10 [|c11 [|c12 [|]]]]]]]]]]]]];
      try discriminate Hlen.
    reflexivity. }
  split; [exact Hcan|]. split.
  - unfold is_valid_mac. rewrite Hne.
    rewrite <- remove_separators_upper_strip. fold (canonical_form (format_mac s)).
    rewrite Hcan. unfold len. rewrite Hlen. exact Hhex.
  - rewrite (format_mac_spell (format_mac s)) by now rewrite Hcan.
    now rewrite Hcan.
Qed.

Lemma format_mac_normal_form_witness :
  is_valid_mac (lit "aabb-ccdd-ee01") = true
  /\ format_mac (lit "aabb-ccdd-ee01") = lit "AA:BB:CC:DD:EE:01".
Proof.
  split; [reflexivity|].
  rewrite (proj1 (format_mac_normal_form (lit "aabb-ccdd-ee01") eq_refl)).
  reflexivity.
Defined.

(** The tests on the canonical form, put together. *)
Lemma accepted_canonical_checks (s : str) :
  mac_accepted s -> canonical_checks (canonical_form s) = true.
Proof.
  intros [_ _ _ _ H5 H6 H7 H8]. unfold canonical_checks.
  rewrite H5, H6, H7. cbn. apply negb_true_iff, Z.leb_gt. exact H8.
Qed.

(** X16.  The validator of the hardened server is the stricter of the
    two: what [validate_mac] accepts, [is_valid_mac] accepts as well, and
    the address as [format_mac] writes it is accepted by [validate_mac]
    again and gives the same magic packet. *)
Theorem validate_mac_stricter_than_is_valid_mac (s : str) (w : World) :
  value_of (validate_mac s) w = Return true ->
  is_valid_mac s = true
  /\ value_of (validate_mac (format_mac s)) w = Return true
  /\ value_of (create_magic_packet (format_mac s)) w
     = value_of (create_magic_packet s) w.
Proof.
  unfold value_of. intros H.
  destruct (validate_mac s w) as [r w'] eqn:E. cbn [fst] in H. subst r.
  destruct (validate_mac_true s w w' E) as [-> Hacc].
  assert (Hc : is_canonical (canonical_form s)).
  { split; [|apply (acc_hex s Hacc)].
    pose proof (acc_twelve s Hacc) as Hl. unfold len in Hl. lia. }
  assert (Hvalid : is_valid_mac s = true).
  { unfold is_valid_mac. rewrite (acc_nonempty s Hacc).
    rewrite <- remove_separators_upper_strip. fold (canonical_form s).
    rewrite (acc_twelve s Hacc). apply (acc_hex s Hacc). }
  split; [exact Hvalid|].
  rewrite (format_mac_spell s (proj1 Hc)).
  destruct (validate_mac_variant (canonical_form s) (spell [":"] (canonical_form s)) w
              Hc (canonical_is_variant _)) as [Hv Hcan].
  rewrite (accepted_canonical_checks s Hacc) in Hv. rewrite Hv.
  split; [reflexivity|].
  destruct (validate_mac_true _ w w Hv) as [_ Hacc'].
  destruct (create_magic_packet_accepted _ w Hacc') as (m1 & E1 & _ & ->).
  destruct (create_magic_packet_accepted s w Hacc) as (m2 & E2 & _ & ->).
  rewrite Hcan in E1. cbn [fst]. congruence.
Qed.

Lemma validate_mac_stricter_than_is_valid_mac_witness :
  value_of (validate_mac (lit "aa-bb-cc-dd-ee-01")) initial_world = Return true
  /\ is_valid_mac (lit "aa-bb-cc-dd-ee-01") = true
  /\ value_of (validate_mac (format_mac (lit "aa-bb-cc-dd-ee-01"))) initial_world
     = Return true.
Proof.
  split; [reflexivity|].
  destruct (validate_mac_stricter_than_is_valid_mac (lit "aa-bb-cc-dd-ee-01")
              initial_world eq_refl) as (H1 & H2 & _).
  split; assumption.
Defined.

Lemma hex_digit_not_colon (c : ascii) :
  char_in c hex_digits = true -> negb (Ascii.eqb c ":") = true.
Proof. each_char c. Qed.

Lemma remove_colons_keep (c : ascii) (r : str) :
  negb (Ascii.eqb c ":") = true -> remove_colons (c :: r) = c :: remove_colons r.
Proof. intros H. unfold remove_colons. cbn [filter]. now rewrite H. Qed.

Lemma remove_colons_colon (r : str) : remove_colons (":" :: r) = remove_colons r.
Proof. reflexivity. Qed.

Lemma remove_colons_spell (c : str) :
  is_canonical c -> remove_colons (spell [":"] c) = c.
Proof.
  intros [Hlen Hhex].
  destruct c as [|c1 [|c2 [|c3 [|c4 [|c5 [|c6 [|c7 [|c8 [|c9 [|c10 [|c11 [|c12 [|]]]]]]]]]]]]];
    try discriminate Hlen.
  cbn [forallb] in Hhex.
  repeat (apply andb_true_iff in Hhex as [? Hhex]).
  repeat match goal with
         | H : char_in ?x hex_digits = true |- _ => apply hex_digit_not_colon in H
         end.
  cbn [spell app].
  repeat first [ rewrite remove_colons_keep by assumption
               | rewrite remove_colons_colon ].
  reflexivity.
Qed.

(** X17.  For an address [is_valid_mac] accepts, written by [format_mac],
    [send_magic_packet_python] builds the magic packet of the canonical
    form and hands it to the system twice, to 192.168.3.255 on port 9 and
    then on port 7, whatever the first send comes to; it answers [True]
    when at least one of the two was taken in full.  Without a socket it
    sends nothing and answers [False]. *)
Theorem send_magic_packet_python_run (h : Host) (s : str) (net : list net_event) :
  is_valid_mac s = true ->
  exists mac_bytes,
    fromhex_parse (canonical_form s) = Some mac_bytes
    /\ length mac_bytes = 6
    /\ let packet := magic_packet_of mac_bytes in
       let port9 := (lit "192.168.3.255", 9%Z) in
       let port7 := (lit "192.168.3.255", 7%Z) in
       send_magic_packet_python h (format_mac s) net
       = if socket_available h
         then (fully_sent h packet port9 || fully_sent h packet port7,
               SocketClosed :: SentTo packet port7 :: SentTo packet port9
                            :: SocketOpened :: net)
         else (false, net).
Proof.
  intros H. destruct (is_valid_mac_canonical s H) as [_ Hc].
  pose proof Hc as [Hlen Hhex].
  destruct (fromhex_hex_digits 6 (canonical_form s) Hlen Hhex) as (bs & Hbs & Hl).
  exists bs. split; [exact Hbs|]. split; [exact Hl|].
  cbv zeta. unfold send_magic_packet_python, fully_sent, magic_packet_of.
  rewrite (format_mac_spell s Hlen), (remove_colons_spell _ Hc), Hbs.
  destruct (socket_available h); [|reflexivity].
  cbn [fold_left try_port andb].
  set (packet := repeat xff 6 ++ concat (repeat bs 16)).
  unfold try_port.
  destruct (sendto_outcome h packet (lit "192.168.3.255", 9%Z)) as [n9| |];
    try destruct (n9 =? len packet)%Z;
    destruct (sendto_outcome h packet (lit "192.168.3.255", 7%Z)) as [n7| |];
    try destruct (n7 =? len packet)%Z;
    reflexivity.
Qed.

Lemma send_magic_packet_python_run_witness :
  let h := mkHost None true
                  (fun data dest => if (snd dest =? 7)%Z then Transmitted (len data)
                                    else TimedOut)
                  (lit "now") in
  is_valid_mac (lit "aa-bb-cc-dd-ee-01") = true
  /\ fst (send_magic_packet_python h (format_mac (lit "aa-bb-cc-dd-ee-01")) []) = true.
Proof.
  intros h. split; [reflexivity|].
  destruct (send_magic_packet_python_run h (lit "aa-bb-cc-dd-ee-01") [] eq_refl)
    as (bs & Hbs & _ & Hrun).
  vm_compute in Hbs. injection Hbs as <-.
  cbv zeta in Hrun. rewrite Hrun. reflexivity.
Defined.
